(** * pyrolite-meltsutil: the batch automation of alphaMELTS runs

  A shallow embedding of [pyrolite_meltsutil/automation/__init__.py]
  (classes [MeltsExperiment] and [MeltsBatch]) and the properties of the
  configuration grid, of the experiment set and of the run loop.

  Conventions of the embedding:
  - a Python [dict] with string keys is a [gmap string value]; a mapping
    held as a value keeps its items in insertion order, the order in which
    it is iterated; equality of two dicts ([==], [in], [not in]) compares
    keys and values, a held mapping without regard to the order of its items;
  - a Python [str] is the string of its UTF-8 bytes; iterating it gives its
    characters (code points);
  - floats are idealised as canonical rationals ([Qc]);
  - dict and list objects that the code mutates in place live in a store and
    are referred to by location: the experiment records, and the list
    objects given to [run] as [exclude]; a record holds its values by value,
    and where its ['exclude'] entry is itself one of those list objects the
    state records the sharing;
  - the log holds the records that the statements of this module send to the
    logger; the progress records that [tqdm] writes to the same logger
    through [ToLogger] come from outside these sources and are not in it;
  - an exception is a value of [exn]; effects that happened before a raise
    stay in the state. *)

From Stdlib Require Import ZArith QArith Qcanon Ascii String List Lia.
From stdpp Require Import base gmap sets list strings numbers.

Local Open Scope string_scope.
Local Open Scope list_scope.
Local Open Scope nat_scope.

(** ** Python values and records *)

Module Py.

(** The values a configuration record holds: numbers, strings, lists of
    strings (['modes'], ['exclude']) and a nested mapping of component to
    number (['modifychem']), by its items in insertion order. *)
Inductive value :=
| VNum (q : Qc)
| VStr (s : string)
| VList (l : list string)
| VDict (items : list (string * Qc)).

#[global] Instance value_eq_dec : EqDecision value.
Proof. solve_decision. Defined.

Inductive exn :=
| KeyError (key : string)
| NameError (name : string)
| AttributeError (attr : string)
| TypeError (what : string)
| ExternalError (msg : string).

#[global] Instance exn_eq_dec : EqDecision exn.
Proof. solve_decision. Defined.

(** [{**a, **b}]: the keys of [b] win. *)
Definition merge_over (a b : gmap string value) : gmap string value := b ∪ a.

(** What [==] sees of a value: a mapping without the order of its items. *)
Definition unordered (v : value) : value :=
  match v with
  | VDict items => VDict (map_to_list (list_to_map items : gmap string Qc))
  | _ => v
  end.

(** [a == b] for two dicts: the same keys with equal values. *)
Definition dict_eq (a b : gmap string value) : Prop :=
  unordered <$> a = unordered <$> b.

#[global] Instance dict_eq_dec a b : Decision (dict_eq a b).
Proof. unfold dict_eq. apply _. Defined.

(** [x not in xs] for a list of dicts: no element of [xs] is [==] to [x]. *)
Definition not_in (x : gmap string value) (xs : list (gmap string value)) : bool :=
  bool_decide (Forall (λ y, ¬ dict_eq x y) xs).

(** The characters of a [str]: a byte [10xxxxxx] of its UTF-8 form continues
    the character before it. *)
Definition continuation (c : ascii) : bool :=
  (128 <=? nat_of_ascii c) && (nat_of_ascii c <? 192).

Fixpoint code_points (s : string) : list string :=
  match s with
  | EmptyString => []
  | String c rest =>
      let chunks := code_points rest in
      let starts_inside :=
        match rest with
        | String c' _ => continuation c'
        | EmptyString => false
        end in
      match starts_inside, chunks with
      | true, chunk :: more => String c chunk :: more
      | _, _ => String c EmptyString :: chunks
      end
  end.

(** Integer literal as a number value. *)
Definition num (z : Z) : value := VNum (Q2Qc (inject_Z z)).

End Py.
Export Py.

Abbreviation record := (gmap string value).

(** A choice grid: an ordered dict from parameter name to its list of values. *)
Abbreviation choices := (list (string * list value)).

(** ** The configuration grid *)

Module Grid.

(** Modelled from the spec: [combine_choices] of [pyrolite.util.multip],
    an external library.  "compute every combination formed by choosing
    exactly one value per key in choices (Cartesian product over the keys'
    value lists; if choices is empty the product is a single empty
    combination)", "first varying key is outermost". *)
Fixpoint combine_choices (config_grid : choices) : list record :=
  match config_grid with
  | [] => [∅]
  | (k, vs) :: rest =>
      flat_map (λ v, map (λ c, <[k := v]> c) (combine_choices rest)) vs
  end.

(** The number of combinations: k1 * k2 * ... * kn. *)
Definition grid_size (config_grid : choices) : nat :=
  foldr (λ kv acc, length kv.2 * acc) 1 config_grid.

(** Lines 169 and 171 of [MeltsBatch.__init__], on the list [grid] of
    combinations:
<<
    self.configs = [{**self.default}]
    self.configs += [{**self.default, **i} for i in grid if i not in self.configs]
>>
    The comprehension is evaluated before [+=] extends the list, so
    [self.configs] is [[default]] throughout the test [i not in self.configs],
    and the test is on the combination [i], not on the merged record. *)
Definition expand_from (default : record) (grid : list record) : list record :=
  let configs := [default] in
  configs ++ map (λ i, merge_over default i) (filter (λ i, not_in i configs = true) grid).

(** Lines 169-171, with [grid = combine_choices(config_grid)]. *)
Definition expand_configs (default : record) (config_grid : choices) : list record :=
  let grid := combine_choices config_grid in
  expand_from default grid.

(** What the specification asks of the expansion: the default first, then
    each merged combination unless it is already present. *)
Definition expand_spec (default : record) (config_grid : choices) : list record :=
  foldl (λ acc i,
           let r := merge_over default i in
           if bool_decide (r ∈ acc) then acc else acc ++ [r])
        [default] (combine_choices config_grid).

End Grid.
Export Grid.

(** ** The data model: batches, the store and the outside world *)

Module Data.

(** A [pathlib.Path], by its parts; [p / n] appends a part. *)
Abbreviation path := (list string).

Definition path_str (p : path) : string := String.concat "/" p.

(** A location in the store. *)
Abbreviation loc := nat.

(** The environment of a run: the default [MELTS_Env()] or one the caller
    supplied. *)
Inductive envspec :=
| MELTS_Env
| EnvFile (src : string).

#[global] Instance envspec_eq_dec : EqDecision envspec.
Proof. solve_decision. Defined.

(** A [MeltsProcess] object, by the arguments of its constructor. *)
Record MeltsProcess := {
  mp_meltsfile : string;
  mp_env : string;
  mp_fromdir : string;
}.

#[global] Instance MeltsProcess_eq_dec : EqDecision MeltsProcess.
Proof. solve_decision. Defined.

(** The calls that leave the module: into [..meltsfile], [..parse], [.org]
    and [.process].  The state records them in order. *)
Inductive call :=
| Call_dict_to_meltsfile (cfg : record) (modes : value) (exclude : list string)
| Call_read_meltsfile (src : string)
| Call_read_envfile (src : envspec)
| Call_make_meltsfolder (meltsfile title : string) (dir : path) (env : string)
| Call_MeltsProcess (mp : MeltsProcess)
| Call_write (mp : MeltsProcess) (commands : list Z) (wait log : bool)
| Call_terminate (mp : MeltsProcess).

#[global] Instance call_eq_dec : EqDecision call.
Proof. solve_decision. Defined.

(** The records that the module itself sends to the batch logger, one
    constructor per format string: ["Estimated Calculation Time: {}"],
    ["Starting {} Calculations."], ["Start {}."], ["Finished {}."],
    ["Calculations Complete after {}"]. *)
Inductive logmsg :=
| Estimated (seconds : nat)
| Starting (n : nat)
| Start (name : string)
| Finished (name : string)
| Complete (duration : Qc).

#[global] Instance logmsg_eq_dec : EqDecision logmsg.
Proof. solve_decision. Defined.

(** The attributes of a [MeltsBatch] object.  [started], [duration] and
    [paths] are only set by [run]. *)
Record MeltsBatch := {
  dir : path;
  default : record;
  env : envspec;
  configs : list record;
  compositions : list record;
  experiments : list (string * loc * envspec);
  est_duration : nat;
  started : option Qc;
  duration : option Qc;
  paths : option (list path);
}.

(** The state: the store of dict objects (experiment records), of list
    objects (exclusion lists) and of batch objects; the log; the folders
    that exist; the calls made so far.  [shared] is the aliasing between
    the two stores of objects: for a record whose ['exclude'] entry is one of
    the list objects of the store (a list that the caller kept and may give
    to [run]), the location of that object.  The entry of such a record shows
    what the object held when the record was made; what it holds now is in
    [lists]. *)
Record World := {
  dicts : list record;
  lists : list (list string);
  batches : list MeltsBatch;
  log : list logmsg;
  folders : gset path;
  calls : list call;
  shared : gmap loc loc;
}.

Definition set_dicts (f : list record → list record) (w : World) : World :=
  {| dicts := f (dicts w); lists := lists w; batches := batches w;
     log := log w; folders := folders w; calls := calls w;
     shared := shared w |}.

Definition set_lists (f : list (list string) → list (list string)) (w : World) : World :=
  {| dicts := dicts w; lists := f (lists w); batches := batches w;
     log := log w; folders := folders w; calls := calls w;
     shared := shared w |}.

Definition set_batches (f : list MeltsBatch → list MeltsBatch) (w : World) : World :=
  {| dicts := dicts w; lists := lists w; batches := f (batches w);
     log := log w; folders := folders w; calls := calls w;
     shared := shared w |}.

Definition set_log (f : list logmsg → list logmsg) (w : World) : World :=
  {| dicts := dicts w; lists := lists w; batches := batches w;
     log := f (log w); folders := folders w; calls := calls w;
     shared := shared w |}.

Definition set_folders (f : gset path → gset path) (w : World) : World :=
  {| dicts := dicts w; lists := lists w; batches := batches w;
     log := log w; folders := f (folders w); calls := calls w;
     shared := shared w |}.

Definition set_calls (f : list call → list call) (w : World) : World :=
  {| dicts := dicts w; lists := lists w; batches := batches w;
     log := log w; folders := folders w; calls := f (calls w);
     shared := shared w |}.

Definition set_shared (f : gmap loc loc → gmap loc loc) (w : World) : World :=
  {| dicts := dicts w; lists := lists w; batches := batches w;
     log := log w; folders := folders w; calls := calls w;
     shared := f (shared w) |}.

Definition set_started (x : option Qc) (b : MeltsBatch) : MeltsBatch :=
  {| dir := dir b; default := default b; env := env b; configs := configs b;
     compositions := compositions b; experiments := experiments b;
     est_duration := est_duration b;
     started := x; duration := duration b; paths := paths b |}.

Definition set_duration (x : option Qc) (b : MeltsBatch) : MeltsBatch :=
  {| dir := dir b; default := default b; env := env b; configs := configs b;
     compositions := compositions b; experiments := experiments b;
     est_duration := est_duration b;
     started := started b; duration := x; paths := paths b |}.

Definition set_paths (x : option (list path)) (b : MeltsBatch) : MeltsBatch :=
  {| dir := dir b; default := default b; env := env b; configs := configs b;
     compositions := compositions b; experiments := experiments b;
     est_duration := est_duration b;
     started := started b; duration := duration b; paths := x |}.

(** What the module takes from outside: functions of modules that are not
    part of these sources, and the behaviour of the engine and of the clock.
    [fault] says, from the calls made so far, whether a call raises;
    [time_time] is the wall clock at a point of the history. *)
Class Outside := {
  exp_name : record → string;
  __chem__ : gset string;
  dict_to_meltsfile : record → value → list string → string;
  read_meltsfile : string → string * option path;
  read_envfile : envspec → string * option path;
  fault : list call → call → option exn;
  time_time : list call → Qc;
}.

End Data.
Export Data.

(** ** Statements: state and exceptions *)

Module Stmt.

(** A statement runs from a state to a state and either raises or returns. *)
Definition M (A : Type) : Type := World → World * (exn + A).

#[global] Instance M_ret : MRet M := λ A a w, (w, inr a).

#[global] Instance M_bind : MBind M := λ A B f m w,
  match m w with
  | (w', inr a) => f a w'
  | (w', inl e) => (w', inl e)
  end.

Definition raise {A} (e : exn) : M A := λ w, (w, inl e).

Definition gets {A} (f : World → A) : M A := λ w, (w, inr (f w)).

Definition modify (f : World → World) : M unit := λ w, (f w, inr tt).

(** [for x in xs: body]. *)
Fixpoint for_each {A} (xs : list A) (body : A → M unit) : M unit :=
  match xs with
  | [] => mret tt
  | x :: rest => body x ;; for_each rest body
  end.

(** *** dict objects *)

Definition deref (d : loc) (w : World) : record :=
  from_option id ∅ (dicts w !! d).

(** [k in d] *)
Definition dict_contains (d : loc) (k : string) : M bool :=
  gets (λ w, bool_decide (is_Some (deref d w !! k))).

(** [d[k]] *)
Definition dict_getitem (d : loc) (k : string) : M value := λ w,
  match deref d w !! k with
  | Some v => (w, inr v)
  | None => (w, inl (KeyError k))
  end.

(** [d[k] = v] *)
Definition dict_setitem (d : loc) (k : string) (v : value) : M unit :=
  modify (set_dicts (alter (insert k v) d)).

(** [d.pop(k)] *)
Definition dict_pop (d : loc) (k : string) : M value := λ w,
  match deref d w !! k with
  | Some v => (set_dicts (alter (delete k) d) w, inr v)
  | None => (w, inl (KeyError k))
  end.

(** [set(d.keys())] *)
Definition dict_keys (d : loc) : M (gset string) :=
  gets (λ w, dom (deref d w)).

(** A new dict object for each record of [rs]; their locations, in order. *)
Definition new_dicts (rs : list record) : M (list loc) := λ w,
  (set_dicts (λ h, h ++ rs) w, inr (seq (length (dicts w)) (length rs))).

(** *** values *)

(** [set(v.keys())]: only a mapping has keys. *)
Definition value_keys (v : value) : M (gset string) :=
  match v with
  | VDict items => mret (list_to_set items.*1)
  | _ => raise (AttributeError "keys")
  end.

(** [v.items()] *)
Definition value_items (v : value) : M (list (string * Qc)) :=
  match v with
  | VDict items => mret items
  | _ => raise (AttributeError "items")
  end.

(** [v.values()] *)
Definition value_values (v : value) : M (list Qc) :=
  match v with
  | VDict items => mret items.*2
  | _ => raise (AttributeError "values")
  end.

(** The elements [list.__iadd__] takes from its right operand: those of a
    list, the characters of a string, the keys of a mapping in insertion
    order; a number is not iterable. *)
Definition value_iter (v : value) : M (list string) :=
  match v with
  | VList l => mret l
  | VStr s => mret (code_points s)
  | VDict items => mret items.*1
  | VNum _ => raise (TypeError "object is not iterable")
  end.

(** [v * x] for a float [x]. *)
Definition value_mul (v : value) (x : Qc) : M value :=
  match v with
  | VNum q => mret (VNum (q * x)%Qc)
  | _ => raise (TypeError "can't multiply by non-int of type 'float'")
  end.

(** *** list objects *)

Definition list_read (l : loc) : M (list string) :=
  gets (λ w, from_option id [] (lists w !! l)).

(** [l += items]: extends the object in place. *)
Definition list_iadd (l : loc) (items : list string) : M unit :=
  modify (set_lists (alter (λ old, old ++ items) l)).

(** The elements that [list.__iadd__] takes from the object that was popped
    from the record [d] as the value [v]: where the record held one of the
    list objects of the store, what that object holds now. *)
Definition object_iter (d : loc) (v : value) : M (list string) := λ w,
  match v, shared w !! d with
  | VList _, Some l => list_read l w
  | _, _ => value_iter v w
  end.

(** *** batch objects *)

Definition self_get {A} (self : loc) (f : MeltsBatch → A) : M A := λ w,
  match batches w !! self with
  | Some b => (w, inr (f b))
  | None => (w, inl (AttributeError "self"))
  end.

Definition self_set (self : loc) (f : MeltsBatch → MeltsBatch) : M unit :=
  modify (set_batches (alter f self)).

(** *** the logger and the module's globals *)

Definition logger_info (m : logmsg) : M unit :=
  modify (set_log (λ l, l ++ [m])).

(** The names bound at module level in [automation/__init__.py]: its imports
    and its definitions. *)
Definition module_globals : list string :=
  [ "Path"; "time"; "datetime"; "tqdm"; "itertools";
    "common_elements"; "common_oxides"; "renormalise"; "ToLogger";
    "combine_choices"; "read_envfile"; "read_meltsfile"; "MELTS_Env";
    "dict_to_meltsfile"; "exp_name"; "make_meltsfolder"; "MeltsProcess";
    "estimate_experiment_duration"; "logging"; "logger"; "__chem__";
    "MeltsExperiment"; "MeltsBatch" ].

(** Evaluating a global name. *)
Definition global_name (n : string) : M unit :=
  if bool_decide (n ∈ module_globals) then mret tt else raise (NameError n).

(** *** calls that leave the module *)

Section Calls.
Context {O : Outside}.

(** A call is recorded, then it raises or returns as the outside decides. *)
Definition extcall (c : call) : M unit := λ w,
  let w' := set_calls (λ l, l ++ [c]) w in
  match fault (calls w) c with
  | Some e => (w', inl e)
  | None => (w', inr tt)
  end.

(** [time.time()] *)
Definition now : M Qc := gets (λ w, time_time (calls w)).

End Calls.

End Stmt.
Export Stmt.

(** ** class MeltsExperiment *)

Module MeltsExperiment.

(** The attributes of a [MeltsExperiment] object. *)
Record t := {
  title : string;
  dir : path;
  log : list string;
  meltsfile : string;
  meltsfilepath : option path;
  envfile : string;
  envfilepath : option path;
  folder : path;
  mp : option MeltsProcess;
}.

Definition set_mp (x : option MeltsProcess) (self : t) : t :=
  {| title := title self; dir := dir self; log := log self;
     meltsfile := meltsfile self; meltsfilepath := meltsfilepath self;
     envfile := envfile self; envfilepath := envfilepath self;
     folder := folder self; mp := x |}.

(** [[0, 1][b]]: a bool indexes a list as 0 or 1. *)
Definition index_by_bool (l : list Z) (b : bool) : Z := nth (Nat.b2n b) l 0%Z.

Section Methods.
Context {O : Outside}.

(** [set_meltsfile]: [self.meltsfile, self.meltsfilepath = read_meltsfile(meltsfile)] *)
Definition set_meltsfile (src : string) : M (string * option path) :=
  extcall (Call_read_meltsfile src);; mret (read_meltsfile src).

(** [set_envfile]: [self.envfile, self.envfilepath = read_envfile(env)] *)
Definition set_envfile (e : envspec) : M (string * option path) :=
  extcall (Call_read_envfile e);; mret (read_envfile e).

(** Modelled from the spec: [make_meltsfolder] of module [.org], which is not
    part of these sources.  "create base_dir/name", "Side effect: two files
    and one directory created"; the folder is what the function returns. *)
Definition make_meltsfolder (meltsfile title : string) (dir : path) (env : string)
  : M path :=
  extcall (Call_make_meltsfolder meltsfile title dir env);;
  modify (set_folders (λ fs, {[ dir ++ [title] ]} ∪ fs));;
  mret (dir ++ [title]).

(** [__init__(self, title, dir, meltsfile=None, env=None)], with
    [_make_folder] at its end.  Without a meltsfile the attribute
    [self.meltsfile] is never set and [_make_folder] fails on it. *)
Definition __init__ (title : string) (dir : path) (meltsfile : option string)
    (env : option envspec) : M t :=
  mf ← match meltsfile with
       | Some src => r ← set_meltsfile src; mret (Some r)
       | None => mret None
       end;
  ef ← match env with
       | Some e => set_envfile e
       | None => set_envfile MELTS_Env
       end;
  match mf with
  | None => raise (AttributeError "meltsfile")
  | Some (m, _) =>
      folder ← make_meltsfolder m title dir ef.1;
      mret {| title := title; dir := dir; log := [];
              meltsfile := m;
              meltsfilepath := Some (folder ++ [title +:+ ".melts"]);
              envfile := ef.1;
              envfilepath := Some (folder ++ ["environment.txt"]);
              folder := folder; mp := None |}
  end.

(** Lines 95-105:
<<
    def run(self, log=False, superliquidus_start=True):
        self.mp = MeltsProcess(
            meltsfile=str(self.title) + ".melts",
            env="environment.txt",
            fromdir=str(self.folder),
        )
        self.mp.write([3, [0, 1][superliquidus_start], 4], wait=True, log=log)
        self.mp.terminate()
>> *)
Definition run (self : t) (log superliquidus_start : bool) : M t :=
  let p := {| mp_meltsfile := title self +:+ ".melts";
              mp_env := "environment.txt";
              mp_fromdir := path_str (folder self) |} in
  extcall (Call_MeltsProcess p);;
  let self := set_mp (Some p) self in
  extcall (Call_write p [3; index_by_bool [0; 1] superliquidus_start; 4]%Z true log);;
  extcall (Call_terminate p);;
  mret self.

End Methods.
End MeltsExperiment.

(** ** class MeltsBatch *)

Module MeltsBatch.

(** [env or MELTS_Env()]: [None] and the empty string are falsy. *)
Definition env_or_default (env : option envspec) : envspec :=
  match env with
  | None => MELTS_Env
  | Some (EnvFile "") => MELTS_Env
  | Some e => e
  end.

(** Lines 174-177: [[{**cfg, **cmp} for (cfg, cmp) in
    itertools.product(self.configs, self.compositions)]]. *)
Definition experiment_records (configs compositions : list record) : list record :=
  map (λ '(cfg, cmp), merge_over cfg cmp) (list_prod configs compositions).

(** The list object that [def run(..., exclude=[], ...)] creates once, when
    the class body is executed, and that every call without [exclude] gets. *)
Definition run_default_exclude : loc := 0.

(** The state once the module is loaded: nothing but that list object. *)
Definition loaded (fs : gset path) : World :=
  {| dicts := []; lists := [[]]; batches := []; log := [];
     folders := fs; calls := []; shared := ∅ |}.

(** Lines 188-192: [[(n, cfg, env) for (n, cfg, env) in experiments
    if not (self.dir / n).exists()]], on the folders [fs] that exist. *)
Definition pending (d : path) (fs : gset path)
    (experiments : list (string * loc * envspec)) : list (string * loc * envspec) :=
  filter (λ e, negb (bool_decide (d ++ [e.1.1] ∈ fs)) = true) experiments.

Section Methods.
Context {O : Outside}.

(** Lines 147-182.  [comp_df.to_dict("records")] is taken as given: the list
    of composition records.  The handler that copies the log to
    [autolog.log] is left out. *)
Definition __init__ (comp_df : list record) (fromdir : path)
    (default_config : record) (config_grid : choices) (env : option envspec)
  : M loc :=
  let env := env_or_default env in
  let configs := expand_configs default_config config_grid in
  let compositions := comp_df in
  let exprs := experiment_records configs compositions in
  locs ← new_dicts exprs;
  let experiments := zip_with (λ expr l, (exp_name expr, l, env)) exprs locs in
  let est_duration := (length experiments * 6)%nat in
  self ← (λ w, (set_batches (λ h, h ++
            [{| dir := fromdir; default := default_config; env := env;
                configs := configs; compositions := compositions;
                experiments := experiments; est_duration := est_duration;
                started := None; duration := None; paths := None |}]) w,
            inr (length (batches w))));
  logger_info (Estimated est_duration);;
  mret self.

(** Lines 199-208: the composition-modification directive. *)
Definition modify_chem (exp : loc) : M unit :=
  has ← dict_contains exp "modifychem";
  if has : bool then
    modifications ← dict_pop exp "modifychem";
    ek ← dict_keys exp;
    mk ← value_keys modifications;
    items ← (v ← dict_getitem exp "modifychem"; value_items v);
    for_each items (λ '(k, v), dict_setitem exp k (VNum v));;
    let allchem := (ek ∪ mk) ∩ __chem__ in
    let unmodified := (ek ∖ mk) ∩ __chem__ in
    offset ← (global_name "np";;
              vs ← value_values modifications;
              mret (foldr Qcplus (Q2Qc 0) vs));
    for_each (elements unmodified) (λ uk,
      v ← dict_getitem exp uk;
      v' ← value_mul v (Q2Qc 100 - offset)%Qc;
      dict_setitem exp uk v')
  else mret tt.

(** Lines 210-212: the exclusion directive.  [exp_exclude] is another name
    for the object [exclude]. *)
Definition merge_exclude (exp exclude : loc) : M loc :=
  let exp_exclude := exclude in
  has ← dict_contains exp "exclude";
  (if has : bool then
     v ← dict_pop exp "exclude";
     items ← object_iter exp v;
     list_iadd exp_exclude items
   else mret tt);;
  mret exp_exclude.

(** Lines 214-220: render the meltsfile, build the experiment, run it.
    [dict_to_meltsfile] receives the dict object and the list object as they
    are at the call. *)
Definition launch (self : loc) (superliquidus_start : bool)
    (name : string) (exp : loc) (env : envspec) (exp_exclude : loc) : M unit :=
  logger_info (Start name);;
  cfg ← gets (deref exp);
  modes ← dict_getitem exp "modes";
  excl ← list_read exp_exclude;
  extcall (Call_dict_to_meltsfile cfg modes excl);;
  let meltsfile := dict_to_meltsfile cfg modes excl in
  d ← self_get self dir;
  M ← MeltsExperiment.__init__ name d (Some meltsfile) (Some env);
  MeltsExperiment.run M false superliquidus_start;;
  logger_info (Finished name).

(** Lines 199-220: the body of the loop. *)
Definition run_body (self : loc) (exclude : loc) (superliquidus_start : bool)
    (e : string * loc * envspec) : M unit :=
  let '(name, exp, env) := e in
  modify_chem exp;;
  exp_exclude ← merge_exclude exp exclude;
  launch self superliquidus_start name exp env exp_exclude.

(** Lines 186-192: the experiments that [run] goes through. *)
Definition select (self : loc) (overwrite : bool)
  : M (list (string * loc * envspec)) :=
  experiments ← self_get self experiments;
  if negb overwrite then
    d ← self_get self dir;
    gets (λ w, pending d (folders w) experiments)
  else mret experiments.

(** Lines 221-223: the duration and the paths. *)
Definition finish (self : loc) (paths : list path) : M unit :=
  t1 ← now;
  t0 ← self_get self started;
  let d := (t1 - from_option id (Q2Qc 0) t0)%Qc in
  self_set self (set_duration (Some d));;
  logger_info (Complete d);;
  self_set self (set_paths (Some paths)).

(** Lines 184-223.  [exclude = None] is a call that leaves the argument out.
    [tqdm] yields the experiments in order; the progress records that it
    writes through [ToLogger(self.logger)] are left out, so the log is that
    of the module's own [self.logger.info] calls.  The two lines that would
    add to [paths] are comments in the source:
<<
            # expdir = self.dir / name  # experiment dir
            # paths.append(expdir)
>> *)
Definition run (self : loc) (overwrite : bool) (exclude : option loc)
    (superliquidus_start : bool) : M unit :=
  let exclude := from_option id run_default_exclude exclude in
  t0 ← now;
  self_set self (set_started (Some t0));;
  experiments ← select self overwrite;
  logger_info (Starting (length experiments));;
  let paths : list path := [] in
  for_each experiments (run_body self exclude superliquidus_start);;
  finish self paths.

End Methods.
End MeltsBatch.

(** ** Observations on a state *)

Module Obs.

(** What a statement guarantees from a state: [Q] on the value and the state
    if it returns, [E] on the exception and the state if it raises. *)
Definition wp {A} (m : M A) (Q : A → World → Prop) (E : exn → World → Prop)
    (w : World) : Prop :=
  match m w with
  | (w', inr a) => Q a w'
  | (w', inl e) => E e w'
  end.

(** The runs that were started, from the log. *)
Definition started_names (l : list logmsg) : list string :=
  flat_map (λ m, match m with Start n => [n] | _ => [] end) l.

(** The exclusion lists that [dict_to_meltsfile] was given, in call order. *)
Definition rendered_excludes (cs : list call) : list (list string) :=
  flat_map (λ c, match c with
                 | Call_dict_to_meltsfile _ _ ex => [ex]
                 | _ => []
                 end) cs.

(** The entries of the ['exclude'] directive of a record, none without it:
    the elements of a list, the characters of a string, the keys of a mapping
    in insertion order. *)
Definition exclusions_of (r : record) : list string :=
  match r !! "exclude" with
  | Some (VList l) => l
  | Some (VStr s) => code_points s
  | Some (VDict items) => items.*1
  | _ => []
  end.

(** The entries that line 212 takes from the directive of the record at
    [exp] when the list object [l] that is being extended holds [cur]: those
    of the directive as the record shows it or, where the directive is one of
    the list objects of the store, what that object holds by then, which for
    the object [l] itself is [cur]. *)
Definition directive_items (w : World) (l : loc) (cur : list string)
    (exp : loc) : list string :=
  match deref exp w !! "exclude", shared w !! exp with
  | Some (VList _), Some l' =>
      if decide (l' = l) then cur else from_option id [] (lists w !! l')
  | _, _ => exclusions_of (deref exp w)
  end.

(** What the list object [l] holds after the exclusion step of each of the
    records [exps] in turn, from [cur]. *)
Fixpoint renderings (w : World) (l : loc) (cur : list string)
    (exps : list loc) : list (list string) :=
  match exps with
  | [] => []
  | exp :: rest =>
      (cur ++ directive_items w l cur exp)
      :: renderings w l (cur ++ directive_items w l cur exp) rest
  end.

(** What it holds after the last of them. *)
Definition grown (w : World) (l : loc) (cur : list string)
    (exps : list loc) : list string :=
  foldl (λ acc exp, acc ++ directive_items w l acc exp) cur exps.

(** The running concatenations [old ++ d1], [old ++ d1 ++ d2], ... *)
Fixpoint accumulate (old : list string) (ds : list (list string))
  : list (list string) :=
  match ds with
  | [] => []
  | d :: rest => (old ++ d) :: accumulate (old ++ d) rest
  end.

(** The sum of the chemical components of a record. *)
Definition chem_total (chem : gset string) (r : record) : Qc :=
  foldr Qcplus (Q2Qc 0)
    (omap (λ kv, match kv.2 with
                 | VNum q => if bool_decide (kv.1 ∈ chem) then Some q else None
                 | _ => None
                 end) (map_to_list r)).

(** The process that [MeltsExperiment.run] starts, and the calls it makes on
    it when nothing raises. *)
Definition process_of (self : MeltsExperiment.t) : MeltsProcess :=
  {| mp_meltsfile := MeltsExperiment.title self +:+ ".melts";
     mp_env := "environment.txt";
     mp_fromdir := path_str (MeltsExperiment.folder self) |}.

Definition session (self : MeltsExperiment.t) (log superliquidus_start : bool)
  : list call :=
  [ Call_MeltsProcess (process_of self);
    Call_write (process_of self)
      [3; if superliquidus_start then 1 else 0; 4]%Z true log;
    Call_terminate (process_of self) ].

(** The experiments that [run] goes through, for a batch [b] and the folders
    [fs] that exist. *)
Definition selection (b : MeltsBatch) (overwrite : bool) (fs : gset path)
  : list (string * loc * envspec) :=
  if overwrite then experiments b
  else MeltsBatch.pending (dir b) fs (experiments b).

(** The exclusion list that a call of [run] works on. *)
Definition exclude_object (exclude : option loc) : loc :=
  from_option id MeltsBatch.run_default_exclude exclude.

(** The state after the exclusion step of an experiment: its directive is
    popped and its entries are appended to the list object. *)
Definition excluded (exp l : loc) (w : World) : World :=
  set_lists (alter (λ old, old ++ directive_items w l old exp) l)
    (set_dicts (alter (delete "exclude") exp) w).

Section Init.
Context {O : Outside}.

(** The state in which the loop of [run] begins. *)
Definition loop_entry (self : loc) (b : MeltsBatch) (overwrite : bool)
    (w : World) : World :=
  set_log (λ l, l ++ [Starting (length (selection b overwrite (folders w)))])
    (set_batches (alter (set_started (Some (time_time (calls w)))) self) w).

(** The batch object that [__init__] builds in a state [w]. *)
Definition init_batch (comp_df : list record) (fromdir : path) (d : record)
    (g : choices) (env : option envspec) (w : World) : MeltsBatch :=
  let exprs := MeltsBatch.experiment_records (expand_configs d g) comp_df in
  let exps :=
    zip_with (λ expr l, (exp_name expr, l, MeltsBatch.env_or_default env))
             exprs (seq (length (dicts w)) (length exprs)) in
  {| dir := fromdir; default := d; env := MeltsBatch.env_or_default env;
     configs := expand_configs d g; compositions := comp_df;
     experiments := exps; est_duration := length exps * 6;
     started := None; duration := None; paths := None |}.

End Init.

End Obs.
Export Obs.

(** ** Sample data *)

Module Sample.

(** A namer that takes the record's title. *)
Definition title_of (r : record) : string :=
  match r !! "Title" with
  | Some (VStr s) => s
  | _ => "MeltsExperiment"
  end.

(** An outside in which no call raises and the clock counts the calls. *)
Definition quiet : Outside :=
  {| exp_name := title_of;
     __chem__ := {[ "SiO2"; "Al2O3"; "FeO"; "MgO"; "CaO"; "Na2O" ]};
     dict_to_meltsfile := λ _ _ _, "Title: ...";
     read_meltsfile := λ src, (src, None);
     read_envfile := λ _, ("ALPHAMELTS_VERSION MELTS", None);
     fault := λ _ _, None;
     time_time := λ h, Q2Qc (inject_Z (Z.of_nat (length h))) |}.

(** The same, but the engine cannot be started in folder [A]. *)
Definition engine_missing : Outside :=
  {| exp_name := title_of;
     __chem__ := {[ "SiO2"; "Al2O3"; "FeO"; "MgO"; "CaO"; "Na2O" ]};
     dict_to_meltsfile := λ _ _ _, "Title: ...";
     read_meltsfile := λ src, (src, None);
     read_envfile := λ _, ("ALPHAMELTS_VERSION MELTS", None);
     fault := λ _ c,
       match c with
       | Call_MeltsProcess p =>
           if bool_decide (mp_fromdir p = "A")
           then Some (ExternalError "run_alphamelts.command not found")
           else None
       | _ => None
       end;
     time_time := λ h, Q2Qc (inject_Z (Z.of_nat (length h))) |}.

Definition isobaric : value := VList ["isobaric"].

(** A composition that sums to 100. *)
Definition comp (title : string) : record :=
  {[ "Title" := VStr title; "SiO2" := num 50; "MgO" := num 30; "FeO" := num 20 ]}.

Definition base : record := {[ "modes" := isobaric ]}.

(** A composition record that carries its modes. *)
Definition run_of (title : string) : record :=
  <["modes" := isobaric]> (comp title).

(** Two different records under one title, each with its modes. *)
Definition morb : record := run_of "MORB".
Definition morb_49 : record := <["SiO2" := num 49]> morb.

(** The batch of these two, with no default and no grid, in a fresh state:
    the result of the constructor. *)
Definition collision_init : World * (exn + loc) :=
  MeltsBatch.__init__ (O := quiet) [morb; morb_49] [] ∅ [] None
    (MeltsBatch.loaded ∅).

(** Two pressures to try. *)
Definition pressure_grid : choices :=
  [("Initial Pressure", [num 5000; num 7000])].

(** A default that already fixes the pressure at the first of them. *)
Definition base_5000 : record :=
  {[ "modes" := isobaric; "Initial Pressure" := num 5000 ]}.

(** A record with a directive that sets MgO to 10. *)
Definition modify_record : record :=
  <["modifychem" := VDict [("MgO", Q2Qc 10)]]> (run_of "A").

Definition modify_init : World * (exn + loc) :=
  MeltsBatch.__init__ (O := quiet) [modify_record] [] ∅ [] None
    (MeltsBatch.loaded ∅).

(** A batch of two runs, [A] and [B], in a state where the folders [fs]
    exist. *)
Definition ab_init (fs : gset path) : World * (exn + loc) :=
  MeltsBatch.__init__ (O := quiet) [run_of "A"; run_of "B"] [] ∅ [] None
    (MeltsBatch.loaded fs).

Definition ab_batch : MeltsBatch :=
  init_batch (O := quiet) [run_of "A"; run_of "B"] [] ∅ [] None
    (MeltsBatch.loaded ∅).

(** A batch of two where the record of [A] has no modes. *)
Definition a_without_modes_init : World * (exn + loc) :=
  MeltsBatch.__init__ (O := quiet) [comp "A"; run_of "B"] [] ∅ [] None
    (MeltsBatch.loaded ∅).

(** A batch of three, where the folder of [A] exists and the record of [B]
    has no modes. *)
Definition abc_init : World * (exn + loc) :=
  MeltsBatch.__init__ (O := quiet) [run_of "A"; comp "B"; run_of "C"] [] ∅ []
    None (MeltsBatch.loaded {[ ["A"] ]}).

(** A batch whose first record excludes olivine, and what a call of [run]
    without [exclude] leaves. *)
Definition olivine_init : World * (exn + loc) :=
  MeltsBatch.__init__ (O := quiet)
    [ <["exclude" := VList ["olivine"]]> (run_of "A"); run_of "B" ] [] ∅ [] None
    (MeltsBatch.loaded ∅).

Definition olivine_run : World * (exn + unit) :=
  MeltsBatch.run (O := quiet) 0 true None true olivine_init.1.

(** A second batch, of one record without a directive, built afterwards. *)
Definition later_init : World * (exn + loc) :=
  MeltsBatch.__init__ (O := quiet) [run_of "C"] [] ∅ [] None olivine_run.1.

Definition later_batch : MeltsBatch :=
  init_batch (O := quiet) [run_of "C"] [] ∅ [] None olivine_run.1.

(** An experiment object in folder [A]. *)
Definition experiment_A : MeltsExperiment.t :=
  {| MeltsExperiment.title := "A"; MeltsExperiment.dir := [];
     MeltsExperiment.log := []; MeltsExperiment.meltsfile := "Title: A";
     MeltsExperiment.meltsfilepath := Some ["A"; "A.melts"];
     MeltsExperiment.envfile := "ALPHAMELTS_VERSION MELTS";
     MeltsExperiment.envfilepath := Some ["A"; "environment.txt"];
     MeltsExperiment.folder := ["A"]; MeltsExperiment.mp := None |}.

End Sample.

(** ** Further observations *)

Module Trace.

(** The command sequences written to the engine, each with its [wait] and
    [log] flags, in call order. *)
Definition writes (cs : list call) : list (list Z * bool * bool) :=
  flat_map (λ c, match c with
                 | Call_write _ commands wait lg => [(commands, wait, lg)]
                 | _ => []
                 end) cs.

(** The write that [MeltsBatch.run] causes for one experiment: line 219 calls
    [M.run(superliquidus_start=...)] and leaves [log] at its default. *)
Definition batch_write (superliquidus_start : bool) : list Z * bool * bool :=
  ([3; if superliquidus_start then 1 else 0; 4]%Z, true, false).

(** The records once the ['exclude'] directive is popped from those at the
    locations [ls]. *)
Definition pop_excludes (ls : list loc) (ds : list record) : list record :=
  foldl (λ acc l, alter (delete "exclude") l acc) ds ls.

(** The log records of the runs named [names], each started and finished. *)
Definition run_records (names : list string) : list logmsg :=
  flat_map (λ n, [Start n; Finished n]) names.

(** A record that the loop body can take to its end: no ['modifychem']
    directive (line 202 fails on one), a ['modes'] key (line 217 reads it)
    and no number as ['exclude'] directive (line 212 iterates over it). *)
Definition runnable (r : record) : Prop :=
  r !! "modifychem" = None ∧
  is_Some (r !! "modes") ∧
  ∀ q, r !! "exclude" ≠ Some (VNum q).

Section Calls.
Context {O : Outside}.

(** The calls that building an experiment makes, in order: lines 52-59 and
    89-91. *)
Definition construction (title : string) (dir : path) (src : string)
    (e : envspec) : list call :=
  [ Call_read_meltsfile src;
    Call_read_envfile e;
    Call_make_meltsfolder (read_meltsfile src).1 title dir (read_envfile e).1 ].

End Calls.

End Trace.
Export Trace.

(** ** Further sample data *)

Module Cases.

(** A batch of [A] and [B] in a state where both folders exist. *)
Definition done_init : World * (exn + loc) :=
  Sample.ab_init {[ ["A"]; ["B"] ]}.

(** A record with a directive that is a number. *)
Definition numeric_exclude : record :=
  <["exclude" := num 5]> (Sample.run_of "A").

Definition numeric_init : World * (exn + loc) :=
  MeltsBatch.__init__ (O := Sample.quiet) [numeric_exclude] [] ∅ [] None
    (MeltsBatch.loaded ∅).

(** A mapping as directive, [{'garnet': 2, 'olivine': 1}]. *)
Definition garnet_olivine : value :=
  VDict [("garnet", Q2Qc 2); ("olivine", Q2Qc 1)].

(** A record that excludes by this mapping and has no modes. *)
Definition garnet_without_modes : record :=
  <["exclude" := garnet_olivine]> (Sample.comp "A").

Definition without_modes_init : World * (exn + loc) :=
  MeltsBatch.__init__ (O := Sample.quiet) [garnet_without_modes] [] ∅ [] None
    (MeltsBatch.loaded ∅).

(** A batch built after the run of [Sample.olivine_init], which left olivine
    in the default list: its first record excludes by the mapping, its second
    by a list, its third not at all. *)
Definition directives : list record :=
  [ <["exclude" := garnet_olivine]> (Sample.run_of "C");
    <["exclude" := VList ["spinel"]]> (Sample.run_of "D");
    Sample.run_of "E" ].

Definition directives_init : World * (exn + loc) :=
  MeltsBatch.__init__ (O := Sample.quiet) directives [] ∅ [] None
    Sample.olivine_run.1.

Definition directives_batch : MeltsBatch :=
  init_batch (O := Sample.quiet) directives [] ∅ [] None Sample.olivine_run.1.

(** That batch, run without [exclude]. *)
Abbreviation directives_run :=
  (MeltsBatch.run (O := Sample.quiet) 1 true None true directives_init.1).

(** A list that the caller keeps, [ex = ['spinel']]: it is the ['exclude']
    entry of both compositions, and it is what [run] is given. *)
Definition kept_list : loc := 1.

Definition kept_records : list record :=
  [ <["exclude" := VList ["spinel"]]> (Sample.run_of "A");
    <["exclude" := VList ["spinel"]]> (Sample.run_of "B") ].

(** The batch of these, built in a state that has the list, *)
Definition kept_init : World * (exn + loc) :=
  MeltsBatch.__init__ (O := Sample.quiet) kept_records [] ∅ [] None
    (set_lists (λ ls, ls ++ [["spinel"]]) (MeltsBatch.loaded ∅)).

Definition kept_batch : MeltsBatch :=
  init_batch (O := Sample.quiet) kept_records [] ∅ [] None
    (set_lists (λ ls, ls ++ [["spinel"]]) (MeltsBatch.loaded ∅)).

(** and the state in which its two records hold that very list. *)
Definition kept_state : World :=
  set_shared (λ _, {[ 0 := kept_list; 1 := kept_list ]}) kept_init.1.

(** [batch.run(overwrite=True, exclude=ex)] there, and the same call with
    [exclude] left out. *)
Abbreviation kept_run :=
  (MeltsBatch.run (O := Sample.quiet) 0 true (Some kept_list) true kept_state).

Abbreviation kept_run_default :=
  (MeltsBatch.run (O := Sample.quiet) 0 true None true kept_state).

(** A default and a grid that varies every key of the default. *)
Definition pressure_default : record := {[ "Initial Pressure" := num 5000 ]}.

(** The batch of [A] and [B], run to its end with an engine that works. *)
Abbreviation ab_run :=
  (MeltsBatch.run (O := Sample.quiet) 0 true None true (Sample.ab_init ∅).1).

(** The batch whose record of [A] has no modes, run until it raises. *)
Abbreviation failed_run :=
  (MeltsBatch.run (O := Sample.quiet) 0 true None true
     Sample.a_without_modes_init.1).

(** The batch with a directive on [A], run to its end. *)
Abbreviation olivine_out :=
  (MeltsBatch.run (O := Sample.quiet) 0 true None true Sample.olivine_init.1).

Definition a_without_modes_batch : MeltsBatch :=
  init_batch (O := Sample.quiet) [Sample.comp "A"; Sample.run_of "B"] [] ∅ []
    None (MeltsBatch.loaded ∅).

Definition olivine_batch : MeltsBatch :=
  init_batch (O := Sample.quiet)
    [ <["exclude" := VList ["olivine"]]> (Sample.run_of "A"); Sample.run_of "B" ]
    [] ∅ [] None (MeltsBatch.loaded ∅).

End Cases.

(** * Properties *)

(** ** Values *)

Lemma code_points_cons (c : ascii) (rest : string) :
  code_points (String c rest) =
  match match rest with
        | String c' _ => continuation c'
        | EmptyString => false
        end, code_points rest with
  | true, chunk :: more => String c chunk :: more
  | _, _ => String c EmptyString :: code_points rest
  end.
Proof. reflexivity. Qed.

(** The characters of a string, put together again, are the string. *)
Lemma code_points_join (s : string) :
  foldr String.append EmptyString (code_points s) = s.
Proof.
  induction s as [|c rest IH]; [done|].
  transitivity (String c (foldr String.append EmptyString (code_points rest)));
    [|by rewrite IH].
  rewrite code_points_cons.
  by destruct (match rest with
               | String c' _ => continuation c'
               | EmptyString => false
               end), (code_points rest).
Qed.

(** A character of more than one byte stays whole. *)
Example code_points_characters :
  code_points "olivine" = ["o"; "l"; "i"; "v"; "i"; "n"; "e"] ∧
  code_points "grès" = ["g"; "r"; "è"; "s"].
Proof. split; vm_compute; reflexivity. Qed.

(** ** The configuration grid *)

Section GridFacts.

Lemma length_combine_choices (g : choices) :
  length (combine_choices g) = grid_size g.
Proof.
  induction g as [|[k vs] rest IH]; [reflexivity|].
  cbn [combine_choices grid_size foldr snd].
  rewrite (flat_map_constant_length (c := length (combine_choices rest))).
  - unfold grid_size in IH. by rewrite IH.
  - intros v _. by rewrite length_map.
Qed.

(** [==] on dicts: two dicts that are the same are equal, and only the empty
    dict is equal to the empty dict. *)
Lemma dict_eq_refl (d : record) : dict_eq d d.
Proof. done. Qed.

Lemma dict_eq_empty (d : record) : dict_eq ∅ d → d = ∅.
Proof.
  unfold dict_eq. rewrite fmap_empty. intros Heq.
  by apply (fmap_empty_inv unordered).
Qed.

(** For a dict that holds no mapping, being equal is being the same. *)
Lemma dict_eq_plain (i d : record) :
  (∀ k items, i !! k ≠ Some (VDict items)) → dict_eq i d → i = d.
Proof.
  intros Hplain Heq. apply map_eq. intros k.
  assert (Hk : unordered <$> i !! k = unordered <$> d !! k).
  { by rewrite <- !lookup_fmap, Heq. }
  specialize (Hplain k).
  destruct (i !! k) as [[]|], (d !! k) as [[]|]; cbn in Hk;
    try done; try congruence.
  all: by destruct (Hplain items).
Qed.

(** Merging a combination that is equal to the default gives a record that
    is equal to the default. *)
Lemma dict_eq_merge_over (d i : record) :
  dict_eq i d → dict_eq (merge_over d i) d.
Proof.
  unfold dict_eq, merge_over. intros Heq.
  rewrite map_fmap_union, Heq. apply (idemp_L (∪)).
Qed.

Lemma expand_from_unfold (d : record) (grid : list record) :
  expand_from d grid
  = d :: map (λ i, i ∪ d) (filter (λ i, ¬ dict_eq i d) grid).
Proof.
  unfold expand_from. cbn [app]. f_equal.
  f_equal. apply list_filter_iff. intros i. unfold not_in.
  rewrite bool_decide_eq_true, Forall_singleton. done.
Qed.

Lemma expand_configs_unfold (d : record) (g : choices) :
  expand_configs d g =
  d :: map (λ i, i ∪ d) (filter (λ i, ¬ dict_eq i d) (combine_choices g)).
Proof. apply expand_from_unfold. Qed.

(** The part of the count that is the code's own, for any list of
    combinations: one more than the combinations that are not equal to the
    default. *)
Lemma length_expand_from (d : record) (grid : list record) :
  length (expand_from d grid)
  = S (length (filter (λ i, ¬ dict_eq i d) grid)).
Proof. rewrite expand_from_unfold. cbn. by rewrite length_map. Qed.

Lemma length_expand_configs (d : record) (g : choices) :
  length (expand_configs d g) =
  S (length (filter (λ i, ¬ dict_eq i d) (combine_choices g))).
Proof. apply length_expand_from. Qed.

Lemma filter_all {A} (P : A → Prop) `{!∀ x, Decision (P x)} (l : list A) :
  (∀ x, x ∈ l → P x) → filter P l = l.
Proof.
  induction l as [|a l IH]; intros Hall; [done|].
  rewrite filter_cons_True by (apply Hall; left).
  f_equal. apply IH. intros x Hx. apply Hall. by right.
Qed.

(** C4, at the inputs where the code departs from it: with an empty choice
    grid and a default record that is not empty, the single empty combination
    differs from the default, passes the test [i not in self.configs] and is
    merged into a second copy of the default.  The expansion the
    specification describes gives [[D]]. *)
Theorem expand_configs_empty_grid_duplicates (d : record) :
  d ≠ ∅ → expand_configs d [] = [d; d] ∧ expand_spec d [] = [d].
Proof.
  intros Hne. split.
  - rewrite expand_configs_unfold. cbn [combine_choices].
    rewrite filter_cons_True by (intros Heq; by apply Hne, dict_eq_empty).
    rewrite filter_nil. cbn [map]. by rewrite (left_id_L ∅ (∪)).
  - unfold expand_spec. cbn [combine_choices foldl].
    unfold merge_over. rewrite (left_id_L ∅ (∪)).
    rewrite bool_decide_eq_true_2; [done|]. by left.
Qed.

Lemma expand_configs_empty_grid_duplicates_witness :
  expand_configs Sample.base [] = [Sample.base; Sample.base] ∧
  expand_spec Sample.base [] = [Sample.base].
Proof.
  apply expand_configs_empty_grid_duplicates.
  apply (bool_decide_unpack _). vm_compute. exact I.
Defined.

(** The same departure when a choice list includes the default's value: the
    combination [{P: 5000}] is not the default record, so its merge, which is
    the default, is kept. *)
Example expand_configs_default_value_kept :
  expand_configs Sample.base_5000 Sample.pressure_grid =
    [ Sample.base_5000; Sample.base_5000;
      <["Initial Pressure" := num 7000]> Sample.base_5000 ] ∧
  expand_spec Sample.base_5000 Sample.pressure_grid =
    [ Sample.base_5000; <["Initial Pressure" := num 7000]> Sample.base_5000 ].
Proof. split; vm_compute; reflexivity. Qed.

(** C7: the expanded list has at most 1 + k1 * ... * kn records, and exactly
    that many unless a combination reproduces the default: whether that is
    read as the merged record being equal to the default, or as the
    combination itself being equal to the default (the test the code makes).
    Equal is Python's [==]. *)
Theorem expand_configs_length (d : record) (g : choices) :
  length (expand_configs d g) ≤ 1 + grid_size g ∧
  ((∀ i, i ∈ combine_choices g → ¬ dict_eq (merge_over d i) d) →
   length (expand_configs d g) = 1 + grid_size g) ∧
  ((∀ i, i ∈ combine_choices g → ¬ dict_eq i d) →
   length (expand_configs d g) = 1 + grid_size g).
Proof.
  rewrite length_expand_configs, <- length_combine_choices.
  assert (Hraw : (∀ i, i ∈ combine_choices g → ¬ dict_eq i d) →
                 S (length (filter (λ i, ¬ dict_eq i d) (combine_choices g))) =
                 1 + length (combine_choices g)).
  { intros Hall. by rewrite filter_all. }
  split; [|split].
  - cbn. apply le_n_S, length_filter.
  - intros Hall. apply Hraw. intros i Hi Heq.
    by apply (Hall i Hi), dict_eq_merge_over.
  - exact Hraw.
Qed.

Lemma expand_configs_length_witness :
  length (expand_configs Sample.base Sample.pressure_grid) =
  1 + grid_size Sample.pressure_grid.
Proof.
  apply (proj1 (proj2 (expand_configs_length Sample.base Sample.pressure_grid))).
  apply (proj1 (list.Forall_forall
                  (λ i, ¬ dict_eq (merge_over Sample.base i) Sample.base) _)).
  apply (bool_decide_unpack _). vm_compute. exact I.
Defined.

End GridFacts.

(** ** The experiment set built by [MeltsBatch.__init__] *)

Section InitFacts.
Context {O : Outside}.

(** [__init__] always returns: it allocates the records, stores the batch
    and logs the estimate; it makes no call and has no failing branch. *)
Lemma init_returns comp_df fromdir d g env w :
  MeltsBatch.__init__ comp_df fromdir d g env w =
  (set_log (λ l, l ++ [Estimated (est_duration (init_batch comp_df fromdir d g env w))])
     (set_batches (λ h, h ++ [init_batch comp_df fromdir d g env w])
        (set_dicts (λ h, h ++ MeltsBatch.experiment_records (expand_configs d g) comp_df) w)),
   inr (length (batches w))).
Proof. reflexivity. Qed.

Lemma init_batch_lookup comp_df fromdir d g env w :
  batches (MeltsBatch.__init__ comp_df fromdir d g env w).1 !! length (batches w)
  = Some (init_batch comp_df fromdir d g env w).
Proof.
  rewrite init_returns. cbn.
  rewrite lookup_app_r by lia. by rewrite Nat.sub_diag.
Qed.

Lemma init_experiment_lookup comp_df fromdir d g env w i r :
  MeltsBatch.experiment_records (expand_configs d g) comp_df !! i = Some r →
  experiments (init_batch comp_df fromdir d g env w) !! i
    = Some (exp_name r, length (dicts w) + i, MeltsBatch.env_or_default env) ∧
  dicts (MeltsBatch.__init__ comp_df fromdir d g env w).1 !! (length (dicts w) + i)
    = Some r.
Proof.
  intros Hi. pose proof (lookup_lt_Some _ _ _ Hi) as Hlt. split.
  - unfold init_batch. cbn [experiments].
    rewrite lookup_zip_with, Hi. cbn.
    by rewrite lookup_seq_lt.
  - rewrite init_returns. cbn.
    rewrite lookup_app_r by lia.
    replace (length (dicts w) + i - length (dicts w)) with i by lia. done.
Qed.

Lemma init_batch_length comp_df fromdir d g env w :
  length (experiments (init_batch comp_df fromdir d g env w)) =
  length (expand_configs d g) * length comp_df.
Proof.
  unfold init_batch. cbn [experiments].
  rewrite length_zip_with_l_eq by (by rewrite length_seq).
  unfold MeltsBatch.experiment_records.
  by rewrite length_map, length_prod.
Qed.

(** The dict objects of a batch are distinct. *)
Lemma init_batch_NoDup comp_df fromdir d g env w :
  NoDup ((experiments (init_batch comp_df fromdir d g env w)).*1.*2).
Proof.
  unfold init_batch. cbn [experiments].
  generalize (MeltsBatch.experiment_records (expand_configs d g) comp_df).
  generalize (length (dicts w)).
  intros n exprs.
  assert (Heq : (zip_with (λ expr l, (exp_name expr, l, MeltsBatch.env_or_default env))
                   exprs (seq n (length exprs))).*1.*2 = seq n (length exprs)).
  { revert n. induction exprs as [|r rs IH]; intros n; [done|].
    cbn. f_equal. apply IH. }
  rewrite Heq. apply NoDup_seq.
Qed.

(** C6: the experiment set has one entry per pair of a configuration and a
    composition, in the order of [itertools.product]: its size is the number
    of configurations times the number of compositions, and each entry is the
    name of the merged record (the composition's keys over the
    configuration's), the merged record itself and the batch's environment.
    One default and two grid combinations with two compositions give six
    entries. *)
Theorem init_experiment_set :
  (∀ comp_df fromdir d g env w,
     ∃ self b,
       (MeltsBatch.__init__ comp_df fromdir d g env w).2 = inr self ∧
       batches (MeltsBatch.__init__ comp_df fromdir d g env w).1 !! self = Some b ∧
       configs b = expand_configs d g ∧
       compositions b = comp_df ∧
       length (experiments b) = length (configs b) * length (compositions b) ∧
       Forall2 (λ '(cfg, cmp) '(name, exp, e),
                  name = exp_name (merge_over cfg cmp) ∧
                  dicts (MeltsBatch.__init__ comp_df fromdir d g env w).1 !! exp
                    = Some (merge_over cfg cmp) ∧
                  e = MeltsBatch.env_or_default env)
               (list_prod (configs b) (compositions b)) (experiments b)) ∧
  (∀ fromdir env w,
     length (expand_configs Sample.base Sample.pressure_grid) = 3 ∧
     (λ b, length (experiments b)) <$>
       batches (MeltsBatch.__init__ [Sample.comp "A"; Sample.comp "B"] fromdir
                  Sample.base Sample.pressure_grid env w).1 !! length (batches w)
     = Some 6).
Proof.
  split.
  - intros comp_df fromdir d g env w.
    exists (length (batches w)), (init_batch comp_df fromdir d g env w).
    split; [by rewrite init_returns|].
    split; [apply init_batch_lookup|].
    split; [done|]. split; [done|].
    split; [apply init_batch_length|].
    apply Forall2_same_length_lookup. split.
    + rewrite init_batch_length. cbn [configs compositions init_batch].
      by rewrite length_prod.
    + intros i [cfg cmp] [[name exp] e] Hp He.
      cbn [configs compositions init_batch] in Hp.
      assert (Hr : MeltsBatch.experiment_records (expand_configs d g) comp_df !! i
                   = Some (merge_over cfg cmp)).
      { unfold MeltsBatch.experiment_records.
        change (map ?f ?l) with (f <$> l).
        by rewrite list_lookup_fmap, Hp. }
      destruct (init_experiment_lookup comp_df fromdir d g env w i _ Hr) as [H1 H2].
      rewrite H1 in He. by simplify_eq.
  - intros fromdir env w. split; [vm_compute; reflexivity|].
    rewrite init_batch_lookup. cbn [fmap option_fmap option_map].
    by rewrite init_batch_length.
Qed.

(** C5, as the code has it: [__init__] never compares names.  Two records of
    the cross product that [exp_name] maps to one name are both kept, each
    with its own dict object, under that name; the constructor returns and
    makes no call. *)
Theorem init_keeps_colliding_names comp_df fromdir d g env w i j r1 r2 :
  i ≠ j →
  MeltsBatch.experiment_records (expand_configs d g) comp_df !! i = Some r1 →
  MeltsBatch.experiment_records (expand_configs d g) comp_df !! j = Some r2 →
  exp_name r1 = exp_name r2 →
  ∃ self b l1 l2 e,
    (MeltsBatch.__init__ comp_df fromdir d g env w).2 = inr self ∧
    batches (MeltsBatch.__init__ comp_df fromdir d g env w).1 !! self = Some b ∧
    calls (MeltsBatch.__init__ comp_df fromdir d g env w).1 = calls w ∧
    experiments b !! i = Some (exp_name r1, l1, e) ∧
    experiments b !! j = Some (exp_name r1, l2, e) ∧
    l1 ≠ l2 ∧
    dicts (MeltsBatch.__init__ comp_df fromdir d g env w).1 !! l1 = Some r1 ∧
    dicts (MeltsBatch.__init__ comp_df fromdir d g env w).1 !! l2 = Some r2.
Proof.
  intros Hij H1 H2 Hname.
  destruct (init_experiment_lookup comp_df fromdir d g env w i r1 H1) as [E1 D1].
  destruct (init_experiment_lookup comp_df fromdir d g env w j r2 H2) as [E2 D2].
  exists (length (batches w)), (init_batch comp_df fromdir d g env w),
    (length (dicts w) + i), (length (dicts w) + j), (MeltsBatch.env_or_default env).
  split; [by rewrite init_returns|].
  split; [apply init_batch_lookup|].
  split; [by rewrite init_returns|].
  split; [done|]. split; [by rewrite Hname|].
  split; [lia|]. done.
Qed.

End InitFacts.

Lemma init_keeps_colliding_names_witness :
  ∃ self b l1 l2 e,
    Sample.collision_init.2 = inr self ∧
    batches Sample.collision_init.1 !! self = Some b ∧
    calls Sample.collision_init.1 = [] ∧
    experiments b !! 0 = Some ("MORB", l1, e) ∧
    experiments b !! 1 = Some ("MORB", l2, e) ∧
    l1 ≠ l2 ∧
    dicts Sample.collision_init.1 !! l1 = Some Sample.morb ∧
    dicts Sample.collision_init.1 !! l2 = Some Sample.morb_49.
Proof.
  apply (init_keeps_colliding_names (O := Sample.quiet)
           [Sample.morb; Sample.morb_49] [] ∅ [] None
           (MeltsBatch.loaded ∅) 0 1 Sample.morb Sample.morb_49).
  - lia.
  - vm_compute; reflexivity.
  - vm_compute; reflexivity.
  - vm_compute; reflexivity.
Defined.

(** C5 fails on the code: two different records named ["MORB"] go through
    the constructor, which returns the batch with both entries, and [run]
    then starts both. *)
Lemma init_name_collision_undetected :
  Sample.morb ≠ Sample.morb_49 ∧
  Sample.collision_init.2 = inr 0 ∧
  experiments <$> batches Sample.collision_init.1 !! 0
    = Some [("MORB", 0, MELTS_Env); ("MORB", 1, MELTS_Env)] ∧
  dicts Sample.collision_init.1 = [Sample.morb; Sample.morb_49] ∧
  (MeltsBatch.run (O := Sample.quiet) 0 true None true Sample.collision_init.1).2
    = inr tt ∧
  started_names
    (log (MeltsBatch.run (O := Sample.quiet) 0 true None true Sample.collision_init.1).1)
    = ["MORB"; "MORB"].
Proof.
  split; [apply (bool_decide_unpack _); vm_compute; exact I|].
  repeat split; vm_compute; reflexivity.
Qed.

(** ** Rules for statements *)

Section WpRules.
Context {O : Outside}.

Lemma wp_mono {A} (m : M A) (Q Q' : A → World → Prop) (E E' : exn → World → Prop) w :
  wp m Q E w →
  (∀ a w', Q a w' → Q' a w') → (∀ e w', E e w' → E' e w') →
  wp m Q' E' w.
Proof. unfold wp. destruct (m w) as [w' [e|a]]; eauto. Qed.

Lemma wp_bind {A B} (m : M A) (f : A → M B) Q E w :
  wp m (λ a, wp (f a) Q E) E w → wp (m ≫= f) Q E w.
Proof.
  unfold wp, mbind, M_bind. by destruct (m w) as [w' [e|a]].
Qed.

Lemma wp_ret {A} (a : A) (Q : A → World → Prop) E w : Q a w → wp (mret a) Q E w.
Proof. done. Qed.

Lemma wp_raise {A} (e : exn) (Q : A → World → Prop) (E : exn → World → Prop) w :
  E e w → wp (raise e) Q E w.
Proof. done. Qed.

Lemma wp_gets {A} (f : World → A) (Q : A → World → Prop) E w :
  Q (f w) w → wp (gets f) Q E w.
Proof. done. Qed.

Lemma wp_modify (g : World → World) (Q : unit → World → Prop) E w :
  Q tt (g w) → wp (modify g) Q E w.
Proof. done. Qed.

Lemma wp_dict_getitem d k (Q : value → World → Prop) (E : exn → World → Prop) w :
  (∀ v, deref d w !! k = Some v → Q v w) →
  (deref d w !! k = None → E (KeyError k) w) →
  wp (dict_getitem d k) Q E w.
Proof.
  intros Hs Hn. unfold wp, dict_getitem.
  destruct (deref d w !! k) as [v|]; eauto.
Qed.

Lemma wp_dict_pop d k (Q : value → World → Prop) (E : exn → World → Prop) w :
  (∀ v, deref d w !! k = Some v → Q v (set_dicts (alter (delete k) d) w)) →
  (deref d w !! k = None → E (KeyError k) w) →
  wp (dict_pop d k) Q E w.
Proof.
  intros Hs Hn. unfold wp, dict_pop.
  destruct (deref d w !! k) as [v|]; eauto.
Qed.

Lemma wp_self_get {A} self (f : MeltsBatch → A) (Q : A → World → Prop)
    (E : exn → World → Prop) w :
  (∀ b, batches w !! self = Some b → Q (f b) w) →
  (batches w !! self = None → E (AttributeError "self") w) →
  wp (self_get self f) Q E w.
Proof.
  intros Hs Hn. unfold wp, self_get.
  destruct (batches w !! self) as [b|]; eauto.
Qed.

Lemma wp_extcall c (Q : unit → World → Prop) (E : exn → World → Prop) w :
  (fault (calls w) c = None → Q tt (set_calls (λ l, l ++ [c]) w)) →
  (∀ e, fault (calls w) c = Some e → E e (set_calls (λ l, l ++ [c]) w)) →
  wp (extcall c) Q E w.
Proof.
  intros Hs Hn. unfold wp, extcall.
  destruct (fault (calls w) c) as [e|]; eauto.
Qed.

Lemma wp_object_iter d v (Q : list string → World → Prop)
    (E : exn → World → Prop) w :
  wp (match v, shared w !! d with
      | VList _, Some l => list_read l
      | _, _ => value_iter v
      end) Q E w →
  wp (object_iter d v) Q E w.
Proof. unfold wp, object_iter. by destruct v, (shared w !! d). Qed.

Lemma wp_conj {A} (m : M A) (Q1 Q2 : A → World → Prop)
    (E1 E2 : exn → World → Prop) w :
  wp m Q1 E1 w → wp m Q2 E2 w →
  wp m (λ a w', Q1 a w' ∧ Q2 a w') (λ e w', E1 e w' ∧ E2 e w') w.
Proof. unfold wp. by destruct (m w) as [w' [e|a]]. Qed.

Lemma for_each_app {A} (xs ys : list A) (body : A → M unit) w :
  for_each (xs ++ ys) body w =
  match for_each xs body w with
  | (w1, inr _) => for_each ys body w1
  | (w1, inl e) => (w1, inl e)
  end.
Proof.
  revert w. induction xs as [|x xs IH]; intros w; cbn [for_each app].
  - done.
  - unfold mbind, M_bind. destruct (body x w) as [w1 [e|[]]]; [done|]. apply IH.
Qed.

End WpRules.

Ltac wp_step :=
  lazymatch goal with
  | |- wp (mbind _ _) _ _ _ => apply wp_bind
  | |- wp (mret _) _ _ _ => apply wp_ret
  | |- wp (raise _) _ _ _ => apply wp_raise
  | |- wp (gets _) _ _ _ => apply wp_gets
  | |- wp (modify _) _ _ _ => apply wp_modify
  | |- wp (logger_info _) _ _ _ => apply wp_modify
  | |- wp (self_set _ _) _ _ _ => apply wp_modify
  | |- wp (dict_setitem _ _ _) _ _ _ => apply wp_modify
  | |- wp (list_iadd _ _) _ _ _ => apply wp_modify
  | |- wp (list_read _) _ _ _ => apply wp_gets
  | |- wp (dict_keys _) _ _ _ => apply wp_gets
  | |- wp (dict_contains _ _) _ _ _ => apply wp_gets
  | |- wp now _ _ _ => apply wp_gets
  | |- wp (dict_getitem _ _) _ _ _ => apply wp_dict_getitem; [intros ? ?|intros ?]
  | |- wp (dict_pop _ _) _ _ _ => apply wp_dict_pop; [intros ? ?|intros ?]
  | |- wp (self_get _ _) _ _ _ => apply wp_self_get; [intros ? ?|intros ?]
  | |- wp (extcall _) _ _ _ => apply wp_extcall; [intros ?|intros ? ?]
  end.

(** Stepping through the statements of [MeltsExperiment] as well. *)
Ltac wp_sym :=
  cbn beta iota;
  first
    [ wp_step
    | lazymatch goal with
      | |- wp (MeltsExperiment.__init__ _ _ _ _) _ _ _ =>
          unfold MeltsExperiment.__init__
      | |- wp (MeltsExperiment.run _ _ _) _ _ _ =>
          unfold MeltsExperiment.run
      | |- wp (MeltsExperiment.set_meltsfile _) _ _ _ =>
          unfold MeltsExperiment.set_meltsfile
      | |- wp (MeltsExperiment.set_envfile _) _ _ _ =>
          unfold MeltsExperiment.set_envfile
      | |- wp (MeltsExperiment.make_meltsfolder _ _ _ _) _ _ _ =>
          unfold MeltsExperiment.make_meltsfolder
      | |- wp (match ?x with _ => _ end) _ _ _ => destruct x
      end ].

Ltac world_simpl :=
  cbn [dicts lists batches log folders calls shared
       set_dicts set_lists set_batches set_log set_folders set_calls
       set_shared] in *.

(** ** [MeltsExperiment.run] *)

Section ExperimentFacts.
Context {O : Outside}.

(** C10: [MeltsExperiment.run] starts the process and sends it one command
    sequence of three tokens, 3, then 1 or 0 as [superliquidus_start] is true
    or false, then 4, with [wait=True], and terminates it.  Whatever the
    process does, the calls made are an initial part of this session and
    nothing else in the state changes; when starting the process and the
    write return, the session is complete, the termination included; and a
    run that returns has made all three calls. *)
Theorem experiment_run_session (self : MeltsExperiment.t) (log sl : bool) (w : World) :
  (∃ k, calls (MeltsExperiment.run self log sl w).1
        = calls w ++ take k (session self log sl)) ∧
  (fault (calls w) (Call_MeltsProcess (process_of self)) = None →
   fault (calls w ++ [Call_MeltsProcess (process_of self)])
         (Call_write (process_of self) [3; if sl then 1 else 0; 4]%Z true log) = None →
   calls (MeltsExperiment.run self log sl w).1 = calls w ++ session self log sl) ∧
  (∀ self', (MeltsExperiment.run self log sl w).2 = inr self' →
     calls (MeltsExperiment.run self log sl w).1 = calls w ++ session self log sl ∧
     self' = MeltsExperiment.set_mp (Some (process_of self)) self) ∧
  set_calls (λ _, calls w) (MeltsExperiment.run self log sl w).1 = w.
Proof.
  unfold MeltsExperiment.run, session, mbind, M_bind, extcall, mret, M_ret.
  fold (process_of self).
  replace (MeltsExperiment.index_by_bool [0%Z; 1%Z] sl)
    with (if sl then 1%Z else 0%Z) by (by destruct sl).
  destruct w as [ds ls bs lg fs cs sh]. cbn.
  destruct (fault cs _) as [e1|] eqn:F1; cbn.
  { split; [by exists 1|]. split; [done|]. split; [done|]. done. }
  destruct (fault (cs ++ _) _) as [e2|] eqn:F2; cbn.
  { split; [exists 2; by rewrite <- !(assoc_L (++))|].
    split; [done|]. split; [done|]. done. }
  destruct (fault ((cs ++ _) ++ _) _) as [e3|] eqn:F3; cbn.
  - split; [exists 3; by rewrite <- !(assoc_L (++))|].
    split; [intros; by rewrite <- !(assoc_L (++))|]. split; [done|]. done.
  - split; [exists 3; by rewrite <- !(assoc_L (++))|].
    split; [intros; by rewrite <- !(assoc_L (++))|].
    split; [|done]. intros self' [= <-]. by rewrite <- !(assoc_L (++)).
Qed.

End ExperimentFacts.

(** ** [MeltsBatch.run] *)

Section RunFacts.
Context {O : Outside}.

(** [run], from its loop on. *)
Lemma run_unfold self ow exclude sl w b :
  batches w !! self = Some b →
  MeltsBatch.run self ow exclude sl w =
  (for_each (selection b ow (folders w))
            (MeltsBatch.run_body self (exclude_object exclude) sl) ;;
   MeltsBatch.finish self []) (loop_entry self b ow w).
Proof.
  intros Hb.
  unfold MeltsBatch.run, MeltsBatch.select, selection, loop_entry.
  unfold mbind at 1 2 3 4. unfold M_bind at 1 2 3 4.
  unfold now, gets, self_set, modify.
  assert (Hb' : batches (set_batches
                  (alter (set_started (Some (time_time (calls w)))) self) w) !! self
                = Some (set_started (Some (time_time (calls w))) b)).
  { cbn. by rewrite list_lookup_alter_eq, Hb. }
  unfold mbind at 1. unfold M_bind at 1. unfold self_get at 1. rewrite Hb'.
  destruct ow; cbn [negb].
  - reflexivity.
  - unfold mbind at 1. unfold M_bind at 1. unfold self_get at 1. rewrite Hb'.
    reflexivity.
Qed.

Lemma deref_lookup exp w r : dicts w !! exp = Some r → deref exp w = r.
Proof. unfold deref. by intros ->. Qed.

Lemma deref_alter exp f w r :
  dicts w !! exp = Some r → deref exp (set_dicts (alter f exp) w) = f r.
Proof. intros Hr. unfold deref. cbn. by rewrite list_lookup_alter_eq, Hr. Qed.

Lemma wp_raises {A} (m : M A) w w1 e :
  wp m (λ _ _, False) (λ e' w', w' = w1 ∧ e' = e) w → m w = (w1, inl e).
Proof.
  unfold wp. destruct (m w) as [w' [e'|a]]; [|done]. by intros [-> ->].
Qed.

(** C1, on the code: a record that holds a ['modifychem'] directive never
    gets past line 202.  The directive is popped at line 200, and line 202
    looks it up again in the record it was popped from: the body raises
    [KeyError] (or, for a directive that is not a mapping, already fails on
    [.keys()] at line 201).  The record is left as it was but for the popped
    key: nothing is overlaid and nothing is rescaled. *)
Theorem modifychem_raises self excl sl name exp env w r v :
  dicts w !! exp = Some r →
  r !! "modifychem" = Some v →
  MeltsBatch.run_body self excl sl (name, exp, env) w =
    (set_dicts (alter (delete "modifychem") exp) w,
     inl (match v with
          | VDict _ => KeyError "modifychem"
          | _ => AttributeError "keys"
          end)).
Proof.
  intros Hr Hv. apply wp_raises.
  unfold MeltsBatch.run_body, MeltsBatch.modify_chem.
  do 2 wp_step. wp_step.
  rewrite bool_decide_eq_true_2
    by (rewrite (deref_lookup _ _ _ Hr), Hv; eauto).
  wp_step. apply wp_dict_pop; rewrite (deref_lookup _ _ _ Hr), Hv; [|done].
  intros v' [= <-].
  do 2 wp_step. wp_step.
  unfold value_keys.
  destruct v; try (by wp_step).
  wp_step. do 2 wp_step.
  apply wp_dict_getitem; rewrite (deref_alter _ _ _ _ Hr), lookup_delete_eq; done.
Qed.

(** The directive step: without a directive nothing happens; with one the
    step raises with the directive popped. *)
Lemma modify_chem_spec exp w :
  wp (MeltsBatch.modify_chem exp)
     (λ _ w', w' = w ∧ deref exp w !! "modifychem" = None)
     (λ _ w', w' = set_dicts (alter (delete "modifychem") exp) w ∧
              is_Some (deref exp w !! "modifychem")) w.
Proof.
  unfold MeltsBatch.modify_chem. do 2 wp_step.
  destruct (deref exp w !! "modifychem") as [v|] eqn:Hv.
  - rewrite bool_decide_eq_true_2 by eauto.
    wp_step. apply wp_dict_pop; rewrite Hv; [|done]. intros v' [= <-].
    do 2 wp_step. wp_step. unfold value_keys.
    destruct v; try (by wp_step; eauto).
    wp_step. do 2 wp_step.
    apply wp_dict_getitem; [|by eauto].
    intros v' Hv'. exfalso. revert Hv'. unfold deref in *. cbn.
    rewrite list_lookup_alter_eq.
    destruct (dicts w !! exp) as [r|]; cbn.
    + by rewrite lookup_delete_eq.
    + by rewrite lookup_empty.
  - rewrite bool_decide_eq_false_2 by (by intros [? ?]).
    by wp_step.
Qed.

Lemma alter_delete_absent (ds : list record) exp k :
  from_option id ∅ (ds !! exp) !! k = None → alter (delete k) exp ds = ds.
Proof.
  intros Hk. apply list_eq. intros i.
  destruct (decide (i = exp)) as [->|Hne].
  - rewrite list_lookup_alter_eq.
    destruct (ds !! exp) as [r|]; [|done]. cbn in *.
    by rewrite delete_id.
  - by rewrite list_lookup_alter_ne.
Qed.

Lemma directive_items_absent w l cur exp :
  deref exp w !! "exclude" = None → directive_items w l cur exp = [].
Proof. intros Hk. unfold directive_items, exclusions_of. by rewrite Hk. Qed.

(** A record that holds a directive of its own gives the entries that the
    record shows. *)
Lemma directive_items_own w l cur exp :
  shared w !! exp = None →
  directive_items w l cur exp = exclusions_of (deref exp w).
Proof.
  intros Hs. unfold directive_items. rewrite Hs.
  by destruct (deref exp w !! "exclude") as [[]|].
Qed.

(** The entries of a record depend on that record, on what it shares and on
    the list objects other than the one that is being extended. *)
Lemma directive_items_frame w w1 l cur e :
  dicts w1 !! e = dicts w !! e →
  shared w1 = shared w →
  (∀ l', l' ≠ l → lists w1 !! l' = lists w !! l') →
  directive_items w1 l cur e = directive_items w l cur e.
Proof.
  intros Hd Hs Hl. unfold directive_items, deref. rewrite Hd, Hs.
  destruct (from_option id ∅ (dicts w !! e) !! "exclude") as [[]|]; try done.
  destruct (shared w !! e) as [l'|]; [|done].
  destruct (decide (l' = l)); [done|]. by rewrite Hl.
Qed.

Lemma renderings_frame w w1 l (locs : list loc) :
  (∀ e, e ∈ locs → dicts w1 !! e = dicts w !! e) →
  shared w1 = shared w →
  (∀ l', l' ≠ l → lists w1 !! l' = lists w !! l') →
  ∀ cur, renderings w1 l cur locs = renderings w l cur locs.
Proof.
  intros Hd Hs Hl. induction locs as [|e locs IH]; intros cur; [done|].
  cbn [renderings].
  rewrite (directive_items_frame w w1 l cur e) by (try done; apply Hd; by left).
  f_equal. apply IH. intros e' He'. apply Hd. by right.
Qed.

Lemma grown_frame w w1 l (locs : list loc) :
  (∀ e, e ∈ locs → dicts w1 !! e = dicts w !! e) →
  shared w1 = shared w →
  (∀ l', l' ≠ l → lists w1 !! l' = lists w !! l') →
  ∀ cur, grown w1 l cur locs = grown w l cur locs.
Proof.
  intros Hd Hs Hl. unfold grown.
  induction locs as [|e locs IH]; intros cur; [done|].
  cbn [foldl].
  rewrite (directive_items_frame w w1 l cur e) by (try done; apply Hd; by left).
  apply IH. intros e' He'. apply Hd. by right.
Qed.

Lemma renderings_length w l cur (locs : list loc) :
  length (renderings w l cur locs) = length locs.
Proof.
  revert cur. induction locs as [|e locs IH]; intros cur; cbn; [done|].
  by rewrite IH.
Qed.

(** Without sharing, the list grows by the directives as the records show
    them. *)
Lemma grown_own w l cur (locs : list loc) :
  (∀ e, e ∈ locs → shared w !! e = None) →
  grown w l cur locs
  = cur ++ concat (map (λ e, exclusions_of (deref e w)) locs).
Proof.
  unfold grown. revert cur.
  induction locs as [|e locs IH]; intros cur Hown; cbn [foldl map concat].
  - by rewrite app_nil_r.
  - rewrite directive_items_own by (apply Hown; by left).
    rewrite IH by (intros e' He'; apply Hown; by right).
    by rewrite <- (assoc_L (++)).
Qed.

Lemma renderings_own w l cur (locs : list loc) :
  (∀ e, e ∈ locs → shared w !! e = None) →
  renderings w l cur locs
  = accumulate cur (map (λ e, exclusions_of (deref e w)) locs).
Proof.
  revert cur.
  induction locs as [|e locs IH]; intros cur Hown; cbn [renderings map accumulate].
  - done.
  - rewrite directive_items_own by (apply Hown; by left).
    f_equal. apply IH. intros e' He'. apply Hown. by right.
Qed.

(** The state after the exclusion step, from the entries that were read. *)
Lemma excluded_eq exp l w items :
  (∀ old, lists w !! l = Some old → directive_items w l old exp = items) →
  set_lists (alter (λ old, old ++ items) l)
    (set_dicts (alter (delete "exclude") exp) w)
  = excluded exp l w.
Proof.
  intros Hitems. unfold excluded, set_lists. world_simpl. f_equal.
  apply list_alter_ext; [|done]. intros old Hold. by rewrite (Hitems old Hold).
Qed.

Lemma excluded_absent exp l w :
  deref exp w !! "exclude" = None → excluded exp l w = w.
Proof.
  intros Hk.
  rewrite <- (excluded_eq exp l w [])
    by (intros old _; by apply directive_items_absent).
  destruct w as [ds ls bs lg fs cs sh]. unfold set_lists, set_dicts. cbn.
  f_equal.
  - by apply alter_delete_absent.
  - apply list_alter_id. intros x. apply app_nil_r.
Qed.

(** The exclusion step: the same object comes back, extended in place. *)
Lemma merge_exclude_spec exp l w :
  wp (MeltsBatch.merge_exclude exp l)
     (λ l' w', l' = l ∧ w' = excluded exp l w)
     (λ _ w', w' = set_dicts (alter (delete "exclude") exp) w ∧
              exclusions_of (deref exp w) = []) w.
Proof.
  unfold MeltsBatch.merge_exclude. do 2 wp_step.
  destruct (deref exp w !! "exclude") as [v|] eqn:Hv.
  - rewrite bool_decide_eq_true_2 by eauto.
    do 2 wp_step. apply wp_dict_pop; rewrite Hv; [|done]. intros v' [= <-].
    wp_step. apply wp_object_iter. world_simpl.
    destruct v as [q|str|xs|items]; [| | destruct (shared w !! exp) as [l'|] eqn:Hsh |];
      unfold value_iter; repeat wp_step;
      try (split; [done|]; unfold exclusions_of; by rewrite Hv).
    all: split; [done|]; apply excluded_eq; intros old Hold;
      unfold directive_items, exclusions_of; rewrite Hv, ?Hsh; try done.
    world_simpl. destruct (decide (l' = l)) as [->|]; [|done].
    by rewrite Hold.
  - rewrite bool_decide_eq_false_2 by (by intros [? ?]).
    repeat wp_step. by rewrite excluded_absent.
Qed.

Lemma rendered_excludes_snoc cs c :
  rendered_excludes (cs ++ [c]) =
  rendered_excludes cs ++
    match c with Call_dict_to_meltsfile _ _ ex => [ex] | _ => [] end.
Proof.
  unfold rendered_excludes. rewrite flat_map_app. cbn. by rewrite app_nil_r.
Qed.

Lemma launch_spec self sl name exp env l w :
  wp (MeltsBatch.launch self sl name exp env l)
     (λ _ w',
        dicts w' = dicts w ∧ lists w' = lists w ∧ batches w' = batches w ∧
        log w' = log w ++ [Start name; Finished name] ∧
        rendered_excludes (calls w') =
          rendered_excludes (calls w) ++ [from_option id [] (lists w !! l)])
     (λ _ w',
        dicts w' = dicts w ∧ lists w' = lists w ∧ batches w' = batches w ∧
        log w' = log w ++ [Start name] ∧
        ∃ b : bool,
          rendered_excludes (calls w') =
            rendered_excludes (calls w) ++
              (if b then [from_option id [] (lists w !! l)] else [])) w.
Proof.
  unfold MeltsBatch.launch.
  repeat wp_sym.
  all: world_simpl; rewrite ?rendered_excludes_snoc, <- ?(assoc_L (++));
    cbn [app]; rewrite ?app_nil_r.
  all: repeat (split; [done|]).
  all: first [ done | by exists true | exists false; by rewrite app_nil_r ].
Qed.

Lemma launch_shared self sl name exp env l w :
  wp (MeltsBatch.launch self sl name exp env l)
     (λ _ w', shared w' = shared w) (λ _ w', shared w' = shared w) w.
Proof.
  unfold MeltsBatch.launch. repeat wp_sym. all: world_simpl; done.
Qed.

(** One pass through the body of the loop: what it does to the stores, to
    the log and to the renderings, when it returns and when it raises. *)
Lemma run_body_spec self l sl name exp env w old :
  lists w !! l = Some old →
  wp (MeltsBatch.run_body self l sl (name, exp, env))
     (λ _ w',
        batches w' = batches w ∧
        (∀ i, i ≠ exp → dicts w' !! i = dicts w !! i) ∧
        lists w' !! l = Some (old ++ directive_items w l old exp) ∧
        log w' = log w ++ [Start name; Finished name] ∧
        rendered_excludes (calls w') =
          rendered_excludes (calls w) ++ [old ++ directive_items w l old exp] ∧
        shared w' = shared w ∧
        (∀ l', l' ≠ l → lists w' !! l' = lists w !! l'))
     (λ _ w',
        batches w' = batches w ∧
        (∀ i, i ≠ exp → dicts w' !! i = dicts w !! i) ∧
        ∃ a b s : bool,
          (b = true → a = true) ∧
          lists w' !! l
            = Some (old ++ if a then directive_items w l old exp else []) ∧
          rendered_excludes (calls w') =
            rendered_excludes (calls w) ++
              (if b then [old ++ directive_items w l old exp] else []) ∧
          log w' = log w ++ if s then [Start name] else []) w.
Proof.
  intros Hl. unfold MeltsBatch.run_body. wp_step.
  eapply wp_mono; [apply modify_chem_spec| |].
  2:{ intros e w' [-> _]. world_simpl.
      split; [done|]. split; [intros i Hi; by rewrite list_lookup_alter_ne|].
      exists false, false, false. by rewrite !app_nil_r. }
  intros _ w' [-> _]. wp_step.
  eapply wp_mono; [apply merge_exclude_spec| |].
  2:{ intros e w' [-> Hex]. world_simpl.
      split; [done|]. split; [intros i Hi; by rewrite list_lookup_alter_ne|].
      exists false, false, false. by rewrite !app_nil_r. }
  intros l' w' [-> ->].
  assert (Hl' : lists (excluded exp l w) !! l
                = Some (old ++ directive_items w l old exp)).
  { unfold excluded. world_simpl. by rewrite list_lookup_alter_eq, Hl. }
  assert (Hd : ∀ i, i ≠ exp → dicts (excluded exp l w) !! i = dicts w !! i).
  { intros i Hi. unfold excluded. world_simpl. by rewrite list_lookup_alter_ne. }
  assert (Hother : ∀ l', l' ≠ l →
            lists (excluded exp l w) !! l' = lists w !! l').
  { intros l' Hne. unfold excluded. world_simpl.
    by rewrite list_lookup_alter_ne. }
  eapply wp_mono;
    [apply (wp_conj _ _ _ _ _ _ (launch_spec self sl name exp env l _)
              (launch_shared self sl name exp env l _))| |].
  - intros _ w' [(Hds & Hls & Hbs & Hlog & Hren) Hsh].
    rewrite Hds, Hls, Hbs, Hlog, Hren, Hl', Hsh. done.
  - intros e w' [(Hds & Hls & Hbs & Hlog & b & Hren) _].
    rewrite Hds, Hls, Hbs, Hlog, Hren, Hl'.
    split; [done|]. split; [done|].
    exists true, b, true. by destruct b.
Qed.

Lemma started_names_app l1 l2 :
  started_names (l1 ++ l2) = started_names l1 ++ started_names l2.
Proof. apply flat_map_app. Qed.

(** The loop: the exclusions pile up in the one list object, each rendering
    gets what has piled up so far, and the runs start in order; a raise stops
    all three where it happens. *)
Lemma loop_spec self l sl exps :
  ∀ w old,
    lists w !! l = Some old →
    NoDup (exps.*1.*2) →
    wp (for_each exps (MeltsBatch.run_body self l sl))
       (λ _ w',
          batches w' = batches w ∧
          lists w' !! l = Some (grown w l old (exps.*1.*2)) ∧
          rendered_excludes (calls w') =
            rendered_excludes (calls w) ++ renderings w l old (exps.*1.*2) ∧
          started_names (log w') = started_names (log w) ++ exps.*1.*1)
       (λ _ w',
          batches w' = batches w ∧
          ∃ k j i,
            j ≤ k ∧ k ≤ length exps ∧ i ≤ length exps ∧
            lists w' !! l = Some (grown w l old (take k (exps.*1.*2))) ∧
            rendered_excludes (calls w') =
              rendered_excludes (calls w) ++
                take j (renderings w l old (exps.*1.*2)) ∧
            started_names (log w') = started_names (log w) ++ take i (exps.*1.*1)) w.
Proof.
  induction exps as [|[[name exp] env] xs IH]; intros w old Hl Hnd.
  { cbn [for_each]. wp_step. cbn. by rewrite !app_nil_r. }
  cbn [for_each]. wp_step.
  apply list.NoDup_cons in Hnd as [Hnotin Hnd]. cbn [fmap list_fmap fst snd] in Hnotin.
  eapply wp_mono; [apply (run_body_spec _ _ _ _ _ _ _ _ Hl)| |].
  - intros _ w1 (Hbs & Hds & Hls & Hlog & Hren & Hsh & Hother).
    assert (Hsame : ∀ e, e ∈ xs.*1.*2 → dicts w1 !! e = dicts w !! e).
    { intros e He. apply Hds. by intros ->. }
    eapply wp_mono; [apply (IH w1 _ Hls Hnd)| |].
    + intros _ w2 (Hbs2 & Hls2 & Hren2 & Hlog2).
      rewrite (grown_frame w w1 l _ Hsame Hsh Hother) in Hls2.
      rewrite (renderings_frame w w1 l _ Hsame Hsh Hother) in Hren2.
      rewrite Hbs2, Hbs, Hls2, Hren2, Hren, Hlog2, Hlog, started_names_app.
      cbn. rewrite <- ?(assoc_L (++)). done.
    + intros e w2 (Hbs2 & k & j & i & Hjk & Hk & Hi & Hls2 & Hren2 & Hlog2).
      rewrite (renderings_frame w w1 l _ Hsame Hsh Hother) in Hren2.
      rewrite (grown_frame w w1 l (take k (xs.*1.*2))) in Hls2;
        [|intros e' He'; apply Hsame; by apply (subseteq_take k)|done|done].
      split; [by rewrite Hbs2|].
      exists (S k), (S j), (S i).
      rewrite Hls2, Hren2, Hren, Hlog2, Hlog, started_names_app.
      cbn. rewrite <- ?(assoc_L (++)).
      repeat split; try done; lia.
  - intros e w1 (Hbs & Hds & a & b & s & Hba & Hls & Hren & Hlog).
    split; [done|].
    exists (if a then 1 else 0), (if b then 1 else 0), (if s then 1 else 0).
    rewrite Hls, Hren, Hlog, started_names_app.
    destruct a, b, s; cbn; rewrite ?take_0; cbn; rewrite ?app_nil_r;
      repeat split; try done; try lia; by specialize (Hba eq_refl).
Qed.

(** The log of one pass through the body, with no assumption on the stores. *)
Lemma run_body_log self l sl name exp env w :
  wp (MeltsBatch.run_body self l sl (name, exp, env))
     (λ _ w', batches w' = batches w ∧
              log w' = log w ++ [Start name; Finished name])
     (λ _ w', batches w' = batches w ∧
              ∃ s : bool, log w' = log w ++ if s then [Start name] else []) w.
Proof.
  unfold MeltsBatch.run_body. wp_step.
  eapply wp_mono; [apply modify_chem_spec| |].
  2:{ intros e w' [-> _]. split; [done|]. exists false. cbn. by rewrite app_nil_r. }
  intros _ w' [-> _]. wp_step.
  eapply wp_mono; [apply merge_exclude_spec| |].
  2:{ intros e w' [-> _]. split; [done|]. exists false. cbn. by rewrite app_nil_r. }
  intros l' w' [-> ->].
  eapply wp_mono; [apply launch_spec| |].
  - by intros _ w' (_ & _ & Hbs & Hlog & _).
  - intros e w' (_ & _ & Hbs & Hlog & _). split; [done|]. by exists true.
Qed.

Lemma loop_log self l sl exps :
  ∀ w,
    wp (for_each exps (MeltsBatch.run_body self l sl))
       (λ _ w', batches w' = batches w ∧
                started_names (log w') = started_names (log w) ++ exps.*1.*1)
       (λ _ w', batches w' = batches w ∧
                ∃ i, i ≤ length exps ∧
                  started_names (log w')
                    = started_names (log w) ++ take i (exps.*1.*1)) w.
Proof.
  induction exps as [|[[name exp] env] xs IH]; intros w.
  { cbn [for_each]. wp_step. cbn. by rewrite !app_nil_r. }
  cbn [for_each]. wp_step.
  eapply wp_mono; [apply run_body_log| |].
  - intros _ w1 (Hbs & Hlog).
    eapply wp_mono; [apply (IH w1)| |].
    + intros _ w2 (Hbs2 & Hlog2).
      rewrite Hbs2, Hbs, Hlog2, Hlog, started_names_app.
      cbn. by rewrite <- ?(assoc_L (++)).
    + intros e w2 (Hbs2 & i & Hi & Hlog2).
      split; [by rewrite Hbs2|]. exists (S i). split; [cbn; lia|].
      rewrite Hlog2, Hlog, started_names_app.
      cbn. by rewrite <- ?(assoc_L (++)).
  - intros e w1 (Hbs & s & Hlog). split; [done|].
    exists (if s then 1 else 0). rewrite Hlog, started_names_app.
    destruct s; cbn; rewrite ?take_0, ?app_nil_r; split; try done; lia.
Qed.

(** Lines 221-223, run on a batch object that is there. *)
Lemma finish_spec self paths w b :
  batches w !! self = Some b →
  wp (MeltsBatch.finish self paths)
     (λ _ w',
        dicts w' = dicts w ∧ lists w' = lists w ∧ calls w' = calls w ∧
        folders w' = folders w ∧
        log w' = log w ++
          [Complete (time_time (calls w) - from_option id (Q2Qc 0) (started b))%Qc] ∧
        batches w' !! self =
          Some (set_paths (Some paths)
                  (set_duration
                     (Some (time_time (calls w) - from_option id (Q2Qc 0) (started b))%Qc)
                     b)))
     (λ _ _, False) w.
Proof.
  intros Hb. unfold MeltsBatch.finish. do 2 wp_step. wp_step.
  apply wp_self_get; rewrite Hb; [|done]. intros b' [= <-].
  repeat wp_step. world_simpl.
  repeat (split; [done|]).
  by rewrite !list_lookup_alter_eq, Hb.
Qed.

Lemma wp_out {A} (m : M A) Q E w :
  wp m Q E w →
  match (m w).2 with
  | inr a => Q a (m w).1
  | inl e => E e (m w).1
  end.
Proof. unfold wp. by destruct (m w) as [w' [e|a]]. Qed.

Lemma run_wp self ow exclude sl w b Q E :
  batches w !! self = Some b →
  wp (for_each (selection b ow (folders w))
               (MeltsBatch.run_body self (exclude_object exclude) sl) ;;
      MeltsBatch.finish self []) Q E (loop_entry self b ow w) →
  wp (MeltsBatch.run self ow exclude sl) Q E w.
Proof. intros Hb. unfold wp. by rewrite (run_unfold _ _ _ _ _ _ Hb). Qed.

Lemma loop_entry_batch self b ow w :
  batches w !! self = Some b →
  batches (loop_entry self b ow w) !! self
  = Some (set_started (Some (time_time (calls w))) b).
Proof.
  intros Hb. unfold loop_entry. world_simpl.
  by rewrite list_lookup_alter_eq, Hb.
Qed.

(** C2, as the code has it: the loop has no handler.  When the body raises on
    an experiment, after the ones before it returned, [run] raises the same
    exception and ends in the state of the raise: nothing is logged about
    it, no later experiment is gone through, and neither the duration nor
    the paths are recorded. *)
Theorem run_error_aborts self ow exclude sl w b pre x post w1 w2 e :
  batches w !! self = Some b →
  selection b ow (folders w) = pre ++ x :: post →
  for_each pre (MeltsBatch.run_body self (exclude_object exclude) sl)
           (loop_entry self b ow w) = (w1, inr tt) →
  MeltsBatch.run_body self (exclude_object exclude) sl x w1 = (w2, inl e) →
  MeltsBatch.run self ow exclude sl w = (w2, inl e).
Proof.
  intros Hb Hsel Hpre Hx.
  rewrite (run_unfold _ _ _ _ _ _ Hb), Hsel.
  unfold mbind at 1. unfold M_bind at 1.
  rewrite for_each_app, Hpre. cbn [for_each].
  unfold mbind at 1. unfold M_bind at 1. by rewrite Hx.
Qed.

(** The log of a whole [run]. *)
Lemma run_log self ow exclude sl w b :
  batches w !! self = Some b →
  wp (MeltsBatch.run self ow exclude sl)
     (λ _ w',
        started_names (log w')
        = started_names (log w) ++ (selection b ow (folders w)).*1.*1)
     (λ _ w',
        ∃ i, i ≤ length (selection b ow (folders w)) ∧
          started_names (log w')
          = started_names (log w) ++ take i ((selection b ow (folders w)).*1.*1)) w.
Proof.
  intros Hb. apply (run_wp _ _ _ _ _ _ _ _ Hb). wp_step.
  assert (Hentry : started_names (log (loop_entry self b ow w))
                   = started_names (log w)).
  { unfold loop_entry. world_simpl. rewrite started_names_app. cbn.
    by rewrite app_nil_r. }
  eapply wp_mono; [apply loop_log| |].
  - intros _ w1 (Hbs & Hlog).
    assert (Hb1 : batches w1 !! self
                  = Some (set_started (Some (time_time (calls w))) b)).
    { rewrite Hbs. by apply loop_entry_batch. }
    eapply wp_mono; [apply (finish_spec _ _ _ _ Hb1)| |done].
    intros _ w2 (_ & _ & _ & _ & Hlog2 & _).
    rewrite Hlog2, started_names_app, Hlog, Hentry. cbn. by rewrite app_nil_r.
  - intros e w1 (_ & i & Hi & Hlog). exists i. by rewrite Hlog, Hentry.
Qed.

(** C3, as the code has it: with [overwrite=False] the experiments that [run]
    goes through are exactly those of the batch whose folder, the base
    directory joined with the name, does not exist when [run] is called,
    whatever was left in the folders that do exist.  They are started in
    order: all of them when [run] returns, and none after the one on which
    the body raises. *)
Theorem run_skips_existing_folders self exclude sl w b :
  batches w !! self = Some b →
  (∀ e, e ∈ MeltsBatch.pending (dir b) (folders w) (experiments b) ↔
        e ∈ experiments b ∧ dir b ++ [e.1.1] ∉ folders w) ∧
  (∃ i, i ≤ length (MeltsBatch.pending (dir b) (folders w) (experiments b)) ∧
     started_names (log (MeltsBatch.run self false exclude sl w).1)
     = started_names (log w) ++
       take i ((MeltsBatch.pending (dir b) (folders w) (experiments b)).*1.*1)) ∧
  ((MeltsBatch.run self false exclude sl w).2 = inr tt →
   started_names (log (MeltsBatch.run self false exclude sl w).1)
   = started_names (log w) ++
     (MeltsBatch.pending (dir b) (folders w) (experiments b)).*1.*1).
Proof.
  intros Hb. split.
  { intros e. unfold MeltsBatch.pending. rewrite list_elem_of_filter.
    rewrite negb_true_iff, bool_decide_eq_false. tauto. }
  pose proof (wp_out _ _ _ _ (run_log self false exclude sl w b Hb)) as Hrun.
  change (selection b false (folders w))
    with (MeltsBatch.pending (dir b) (folders w) (experiments b)) in Hrun.
  destruct ((MeltsBatch.run self false exclude sl w).2) as [e|[]].
  - split; [done|]. done.
  - split; [|done].
    exists (length (MeltsBatch.pending (dir b) (folders w) (experiments b))).
    split; [done|]. rewrite Hrun. f_equal.
    rewrite take_ge; [done|]. by rewrite !length_fmap.
Qed.

Lemma run_without_self self ow exclude sl w :
  batches w !! self = None →
  (MeltsBatch.run self ow exclude sl w).2 = inl (AttributeError "self").
Proof.
  intros Hb.
  unfold MeltsBatch.run, MeltsBatch.select.
  unfold mbind at 1 2 3. unfold M_bind at 1 2 3.
  unfold now, gets, self_set, modify.
  unfold mbind at 1. unfold M_bind at 1. unfold self_get at 1.
  world_simpl. by rewrite list_lookup_alter_eq, Hb.
Qed.

(** C9, on the code: a [run] that returns has recorded the duration, the
    clock at the end less the clock at the start, and has recorded as paths
    the empty list, however many experiments it went through: nothing is ever
    added to [paths] between [paths = []] and [self.paths = paths]. *)
Theorem run_records_empty_paths self ow exclude sl w :
  (MeltsBatch.run self ow exclude sl w).2 = inr tt →
  ∃ b b',
    batches w !! self = Some b ∧
    batches (MeltsBatch.run self ow exclude sl w).1 !! self = Some b' ∧
    paths b' = Some [] ∧
    duration b' =
      Some (time_time (calls (MeltsBatch.run self ow exclude sl w).1)
            - time_time (calls w))%Qc ∧
    started_names (log (MeltsBatch.run self ow exclude sl w).1)
    = started_names (log w) ++ (selection b ow (folders w)).*1.*1.
Proof.
  intros Hret.
  destruct (batches w !! self) as [b|] eqn:Hb.
  2:{ by rewrite (run_without_self _ _ _ _ _ Hb) in Hret. }
  exists b.
  assert (Hwp : wp (MeltsBatch.run self ow exclude sl)
            (λ _ w', ∃ b', batches w' !! self = Some b' ∧ paths b' = Some [] ∧
                       duration b' = Some (time_time (calls w') - time_time (calls w))%Qc)
            (λ _ _, True) w).
  { apply (run_wp _ _ _ _ _ _ _ _ Hb). wp_step.
    eapply wp_mono; [apply loop_log| |done].
    intros _ w1 (Hbs & _).
    assert (Hb1 : batches w1 !! self
                  = Some (set_started (Some (time_time (calls w))) b)).
    { rewrite Hbs. by apply loop_entry_batch. }
    eapply wp_mono; [apply (finish_spec _ _ _ _ Hb1)| |done].
    intros _ w2 (_ & _ & Hcs & _ & _ & Hb2).
    eexists. split; [exact Hb2|]. rewrite Hcs. done. }
  apply wp_out in Hwp.
  pose proof (wp_out _ _ _ _ (run_log self ow exclude sl w b Hb)) as Hlog.
  rewrite Hret in Hwp, Hlog.
  destruct Hwp as (b' & Hb' & Hp & Hd). by exists b'.
Qed.

Lemma selection_NoDup b ow fs :
  NoDup ((experiments b).*1.*2) → NoDup ((selection b ow fs).*1.*2).
Proof.
  intros Hnd. destruct ow; [done|]. cbn [selection].
  eapply sublist_NoDup; [exact Hnd|].
  do 2 apply fmap_sublist. apply sublist_filter.
Qed.

(** C8: [run] works on one list object, the caller's or, when the argument is
    left out, the default created with the function, and extends it in place
    with the entries of each ['exclude'] directive it meets: the elements of
    a list, the characters of a string, the keys of a mapping in insertion
    order; and where a record's directive is itself a list object of the
    store, what that object holds by then, which for the very list that is
    being extended is the list grown so far.  Every rendering is given the
    list as it is by then, with the exclusions of all earlier experiments,
    and the object keeps them when [run] is over, for whoever uses it next.
    Where no record gone through shares its directive, the list ends as what
    it was followed by the directives in turn. *)
Theorem run_extends_exclude_in_place self ow exclude sl w b old :
  batches w !! self = Some b →
  lists w !! exclude_object exclude = Some old →
  NoDup ((experiments b).*1.*2) →
  (∃ k j,
     j ≤ k ∧ k ≤ length (selection b ow (folders w)) ∧
     lists (MeltsBatch.run self ow exclude sl w).1 !! exclude_object exclude
     = Some (grown w (exclude_object exclude) old
               (take k ((selection b ow (folders w)).*1.*2))) ∧
     rendered_excludes (calls (MeltsBatch.run self ow exclude sl w).1)
     = rendered_excludes (calls w) ++
       take j (renderings w (exclude_object exclude) old
                 ((selection b ow (folders w)).*1.*2))) ∧
  ((MeltsBatch.run self ow exclude sl w).2 = inr tt →
   lists (MeltsBatch.run self ow exclude sl w).1 !! exclude_object exclude
   = Some (grown w (exclude_object exclude) old
             ((selection b ow (folders w)).*1.*2)) ∧
   rendered_excludes (calls (MeltsBatch.run self ow exclude sl w).1)
   = rendered_excludes (calls w) ++
     renderings w (exclude_object exclude) old
       ((selection b ow (folders w)).*1.*2)) ∧
  ((∀ e, e ∈ (selection b ow (folders w)).*1.*2 → shared w !! e = None) →
   grown w (exclude_object exclude) old ((selection b ow (folders w)).*1.*2)
   = old ++ concat (map (λ e, exclusions_of (deref e w))
                      ((selection b ow (folders w)).*1.*2)) ∧
   renderings w (exclude_object exclude) old
     ((selection b ow (folders w)).*1.*2)
   = accumulate old (map (λ e, exclusions_of (deref e w))
                       ((selection b ow (folders w)).*1.*2))).
Proof.
  intros Hb Hl Hnd.
  set (sel := selection b ow (folders w)).
  set (l := exclude_object exclude) in *.
  assert (Hwp : wp (MeltsBatch.run self ow exclude sl)
            (λ _ w',
               lists w' !! l = Some (grown w l old (sel.*1.*2)) ∧
               rendered_excludes (calls w')
               = rendered_excludes (calls w) ++ renderings w l old (sel.*1.*2))
            (λ _ w',
               ∃ k j, j ≤ k ∧ k ≤ length sel ∧
                 lists w' !! l = Some (grown w l old (take k (sel.*1.*2))) ∧
                 rendered_excludes (calls w')
                 = rendered_excludes (calls w) ++
                   take j (renderings w l old (sel.*1.*2))) w).
  { apply (run_wp _ _ _ _ _ _ _ _ Hb). wp_step.
    eapply wp_mono;
      [apply (loop_spec self l sl sel
                (loop_entry self b ow w) old Hl (selection_NoDup _ _ _ Hnd))| |].
    - intros _ w1 (Hbs & Hls & Hren & _).
      rewrite (grown_frame w (loop_entry self b ow w) l) in Hls by done.
      rewrite (renderings_frame w (loop_entry self b ow w) l) in Hren by done.
      assert (Hb1 : batches w1 !! self
                    = Some (set_started (Some (time_time (calls w))) b)).
      { rewrite Hbs. by apply loop_entry_batch. }
      eapply wp_mono; [apply (finish_spec _ _ _ _ Hb1)| |done].
      intros _ w2 (_ & Hls2 & Hcs2 & _). rewrite Hls2, Hcs2. done.
    - intros e w1 (_ & k & j & i & Hjk & Hk & _ & Hls & Hren & _).
      rewrite (grown_frame w (loop_entry self b ow w) l) in Hls by done.
      rewrite (renderings_frame w (loop_entry self b ow w) l) in Hren by done.
      exists k, j. done. }
  apply wp_out in Hwp.
  split; [|split].
  - destruct ((MeltsBatch.run self ow exclude sl w).2) as [e|[]]; [done|].
    destruct Hwp as [Hls Hren].
    exists (length sel), (length sel).
    rewrite !take_ge
      by (rewrite ?renderings_length, ?length_fmap; done).
    done.
  - intros Hret. by rewrite Hret in Hwp.
  - intros Hown. split; [by apply grown_own|by apply renderings_own].
Qed.

End RunFacts.

(** ** The properties at work on sample batches *)

Lemma experiment_run_session_witness :
  calls (MeltsExperiment.run (O := Sample.quiet) Sample.experiment_A false false
           (MeltsBatch.loaded ∅)).1
  = [ Call_MeltsProcess (process_of Sample.experiment_A);
      Call_write (process_of Sample.experiment_A) [3; 0; 4]%Z true false;
      Call_terminate (process_of Sample.experiment_A) ].
Proof.
  apply (proj1 (proj2 (experiment_run_session (O := Sample.quiet)
                         Sample.experiment_A false false (MeltsBatch.loaded ∅)))).
  - reflexivity.
  - reflexivity.
Defined.

Lemma modifychem_raises_witness :
  MeltsBatch.run_body (O := Sample.quiet) 0 0 true ("A", 0, MELTS_Env)
    Sample.modify_init.1
  = (set_dicts (alter (delete "modifychem") 0) Sample.modify_init.1,
     inl (KeyError "modifychem")).
Proof.
  apply (modifychem_raises (O := Sample.quiet) 0 0 true "A" 0 MELTS_Env
           Sample.modify_init.1 Sample.modify_record
           (VDict [("MgO", Q2Qc 10)])).
  - vm_compute; reflexivity.
  - vm_compute; reflexivity.
Defined.

(** The whole [run] on that batch: the components sum to 100 and the
    directive asks for MgO = 10; [run] raises, and the record still has
    MgO = 30 and SiO2 = 50. *)
Example modifychem_run_fails :
  this (chem_total (__chem__ (Outside := Sample.quiet)) Sample.modify_record)
    = 100%Q ∧
  (MeltsBatch.run (O := Sample.quiet) 0 true None true Sample.modify_init.1).2
    = inl (KeyError "modifychem") ∧
  dicts (MeltsBatch.run (O := Sample.quiet) 0 true None true Sample.modify_init.1).1
    = [Sample.run_of "A"] ∧
  Sample.run_of "A" !! "MgO" = Some (num 30) ∧
  started_names
    (log (MeltsBatch.run (O := Sample.quiet) 0 true None true Sample.modify_init.1).1)
    = [].
Proof. repeat split; vm_compute; reflexivity. Qed.

Lemma run_error_aborts_witness :
  MeltsBatch.run (O := Sample.engine_missing) 0 true None true (Sample.ab_init ∅).1
  = ((MeltsBatch.run_body (O := Sample.engine_missing) 0 0 true
        ("A", 0, MELTS_Env)
        (loop_entry (O := Sample.engine_missing) 0 Sample.ab_batch true
           (Sample.ab_init ∅).1)).1,
     inl (ExternalError "run_alphamelts.command not found")).
Proof.
  apply (run_error_aborts (O := Sample.engine_missing) 0 true None true
           (Sample.ab_init ∅).1 Sample.ab_batch
           [] ("A", 0, MELTS_Env) [("B", 1, MELTS_Env)]
           (loop_entry (O := Sample.engine_missing) 0 Sample.ab_batch true
              (Sample.ab_init ∅).1)).
  - vm_compute; reflexivity.
  - vm_compute; reflexivity.
  - reflexivity.
  - vm_compute; reflexivity.
Defined.

(** C2 fails on the code, in preparing and in executing.  The record of [A]
    has no ['modes']: line 217 raises [KeyError], [run] raises it in turn, the
    log ends at ["Start A."] and [B] is never started.  Likewise when the
    engine cannot be started for [A].  With an engine that runs and records
    that are complete, both are started. *)
Lemma failed_run_aborts_batch :
  (MeltsBatch.run (O := Sample.quiet) 0 true None true
     Sample.a_without_modes_init.1).2
    = inl (KeyError "modes") ∧
  log (MeltsBatch.run (O := Sample.quiet) 0 true None true
         Sample.a_without_modes_init.1).1
    = [Estimated 12; Starting 2; Start "A"] ∧
  folders (MeltsBatch.run (O := Sample.quiet) 0 true None true
             Sample.a_without_modes_init.1).1
    = ∅ ∧
  (MeltsBatch.run (O := Sample.engine_missing) 0 true None true (Sample.ab_init ∅).1).2
    = inl (ExternalError "run_alphamelts.command not found") ∧
  log (MeltsBatch.run (O := Sample.engine_missing) 0 true None true
         (Sample.ab_init ∅).1).1
    = [Estimated 12; Starting 2; Start "A"] ∧
  folders (MeltsBatch.run (O := Sample.engine_missing) 0 true None true
             (Sample.ab_init ∅).1).1
    = {[ ["A"] ]} ∧
  (MeltsBatch.run (O := Sample.quiet) 0 true None true (Sample.ab_init ∅).1).2
    = inr tt ∧
  started_names
    (log (MeltsBatch.run (O := Sample.quiet) 0 true None true (Sample.ab_init ∅).1).1)
    = ["A"; "B"].
Proof. repeat split; vm_compute; reflexivity. Qed.

Lemma run_skips_existing_folders_witness :
  started_names
    (log (MeltsBatch.run (O := Sample.quiet) 0 false None true
            (Sample.ab_init {[ ["A"] ]}).1).1)
  = started_names (log (Sample.ab_init {[ ["A"] ]}).1) ++
    (MeltsBatch.pending (dir Sample.ab_batch) (folders (Sample.ab_init {[ ["A"] ]}).1)
       (experiments Sample.ab_batch)).*1.*1.
Proof.
  apply (proj2 (proj2 (run_skips_existing_folders (O := Sample.quiet) 0 None true
                         (Sample.ab_init {[ ["A"] ]}).1 Sample.ab_batch
                         ltac:(vm_compute; reflexivity)))).
  vm_compute; reflexivity.
Defined.

(** C3 fails on the code: the folder of [A] exists and those of [B] and [C]
    do not; with [overwrite=False], [A] is left out, [B] is started and
    raises for want of its modes, and [C], whose folder does not exist, is
    not gone through. *)
Lemma pending_run_not_attempted :
  (MeltsBatch.pending [] (folders Sample.abc_init.1)
     [("A", 0, MELTS_Env); ("B", 1, MELTS_Env); ("C", 2, MELTS_Env)]).*1.*1
    = ["B"; "C"] ∧
  experiments <$> batches Sample.abc_init.1 !! 0
    = Some [("A", 0, MELTS_Env); ("B", 1, MELTS_Env); ("C", 2, MELTS_Env)] ∧
  (MeltsBatch.run (O := Sample.quiet) 0 false None true Sample.abc_init.1).2
    = inl (KeyError "modes") ∧
  log (MeltsBatch.run (O := Sample.quiet) 0 false None true Sample.abc_init.1).1
    = [Estimated 18; Starting 2; Start "B"] ∧
  folders (MeltsBatch.run (O := Sample.quiet) 0 false None true
             Sample.abc_init.1).1
    = {[ ["A"] ]}.
Proof. repeat split; vm_compute; reflexivity. Qed.

Lemma run_records_empty_paths_witness :
  ∃ b b',
    batches (Sample.ab_init ∅).1 !! 0 = Some b ∧
    batches (MeltsBatch.run (O := Sample.quiet) 0 true None true
               (Sample.ab_init ∅).1).1 !! 0 = Some b' ∧
    paths b' = Some [] ∧
    duration b' =
      Some (time_time (Outside := Sample.quiet)
              (calls (MeltsBatch.run (O := Sample.quiet) 0 true None true
                        (Sample.ab_init ∅).1).1)
            - time_time (Outside := Sample.quiet) (calls (Sample.ab_init ∅).1))%Qc ∧
    started_names
      (log (MeltsBatch.run (O := Sample.quiet) 0 true None true
              (Sample.ab_init ∅).1).1)
    = started_names (log (Sample.ab_init ∅).1) ++
      (selection b true (folders (Sample.ab_init ∅).1)).*1.*1.
Proof.
  apply (run_records_empty_paths (O := Sample.quiet) 0 true None true
           (Sample.ab_init ∅).1).
  vm_compute; reflexivity.
Defined.

(** The two runs were gone through and their folders made, and the recorded
    paths are empty. *)
Example paths_empty_after_two_runs :
  started_names
    (log (MeltsBatch.run (O := Sample.quiet) 0 true None true (Sample.ab_init ∅).1).1)
    = ["A"; "B"] ∧
  folders (MeltsBatch.run (O := Sample.quiet) 0 true None true
             (Sample.ab_init ∅).1).1
    = {[ ["A"]; ["B"] ]} ∧
  paths <$> batches (MeltsBatch.run (O := Sample.quiet) 0 true None true
                       (Sample.ab_init ∅).1).1 !! 0
    = Some (Some []).
Proof. repeat split; vm_compute; reflexivity. Qed.

Lemma run_extends_exclude_in_place_witness :
  lists Cases.kept_run.1 !! exclude_object (Some Cases.kept_list)
  = Some (grown Cases.kept_state (exclude_object (Some Cases.kept_list))
            ["spinel"]
            ((selection Cases.kept_batch true (folders Cases.kept_state)).*1.*2)) ∧
  rendered_excludes (calls Cases.kept_run.1)
  = rendered_excludes (calls Cases.kept_state) ++
    renderings Cases.kept_state (exclude_object (Some Cases.kept_list))
      ["spinel"]
      ((selection Cases.kept_batch true (folders Cases.kept_state)).*1.*2).
Proof.
  apply (proj1 (proj2
           (run_extends_exclude_in_place (O := Sample.quiet) 0 true
              (Some Cases.kept_list) true Cases.kept_state Cases.kept_batch
              ["spinel"]
              ltac:(vm_compute; reflexivity)
              ltac:(vm_compute; reflexivity)
              ltac:(apply (bool_decide_unpack _); vm_compute; exact I)))).
  vm_compute; reflexivity.
Defined.

(** What that comes to.  The caller's list is the directive of both records:
    line 212 extends it by itself, twice, and the renderings get two and
    four entries.  Given to a call that leaves [exclude] out, the same
    records extend the default list by what the shared list holds, and the
    shared list stays as it is. *)
Example shared_list_doubles :
  lists Cases.kept_state = [[]; ["spinel"]] ∧
  lists Cases.kept_run.1
    = [[]; ["spinel"; "spinel"; "spinel"; "spinel"]] ∧
  rendered_excludes (calls Cases.kept_run.1)
    = [ ["spinel"; "spinel"]; ["spinel"; "spinel"; "spinel"; "spinel"] ] ∧
  lists Cases.kept_run_default.1 = [["spinel"; "spinel"]; ["spinel"]] ∧
  rendered_excludes (calls Cases.kept_run_default.1)
    = [ ["spinel"]; ["spinel"; "spinel"] ].
Proof. repeat split; vm_compute; reflexivity. Qed.

(** Where no directive is shared: the batch built after an earlier run left
    olivine in the default list. *)
Example directives_grow :
  grown Cases.directives_init.1 MeltsBatch.run_default_exclude ["olivine"]
    ((selection Cases.directives_batch true
        (folders Cases.directives_init.1)).*1.*2)
  = ["olivine"] ++ concat
      (map (λ e, exclusions_of (deref e Cases.directives_init.1))
         ((selection Cases.directives_batch true
             (folders Cases.directives_init.1)).*1.*2)).
Proof. vm_compute; reflexivity. Qed.

(** There the default list held olivine from the earlier call; the mapping
    of the first record adds its keys in the order in which they were
    inserted, the list of the second its element, the third nothing; and
    each rendering is given the list as it has grown by then. *)
Example directives_accumulate :
  exclusions_of <$> drop 2 (dicts Cases.directives_init.1)
    = [["garnet"; "olivine"]; ["spinel"]; []] ∧
  lists Cases.directives_init.1 !! MeltsBatch.run_default_exclude
    = Some ["olivine"] ∧
  lists Cases.directives_run.1 !! MeltsBatch.run_default_exclude
    = Some ["olivine"; "garnet"; "olivine"; "spinel"] ∧
  drop 2 (rendered_excludes (calls Cases.directives_run.1))
    = [ ["olivine"; "garnet"; "olivine"];
        ["olivine"; "garnet"; "olivine"; "spinel"];
        ["olivine"; "garnet"; "olivine"; "spinel"] ] ∧
  exclusions_of <$> dicts Cases.directives_run.1 = [[]; []; []; []; []].
Proof. repeat split; vm_compute; reflexivity. Qed.

(** The exclusion of the first record reaches the second record of the same
    batch and, through the default list, the record of a later batch: all
    three renderings exclude olivine, and only the first record asked for
    it. *)
Example exclusion_reaches_later_runs :
  exclusions_of <$> dicts Sample.olivine_init.1 = [["olivine"]; []] ∧
  rendered_excludes (calls Sample.olivine_run.1) = [["olivine"]; ["olivine"]] ∧
  lists Sample.olivine_run.1 !! MeltsBatch.run_default_exclude = Some ["olivine"] ∧
  exclusions_of <$> dicts Sample.olivine_run.1 = [[]; []] ∧
  rendered_excludes
    (calls (MeltsBatch.run (O := Sample.quiet) 1 true None true Sample.later_init.1).1)
  = [["olivine"]; ["olivine"]; ["olivine"]].
Proof. repeat split; vm_compute; reflexivity. Qed.

(** * Further properties *)

(** ** Building and running one experiment *)

Section ExperimentMore.
Context {O : Outside}.

(** X1: an experiment built without a meltsfile, which is the default of the
    constructor, never comes into being.  The environment file is read, that
    is the one call made, and then [_make_folder] fails on the attribute
    [self.meltsfile], which line 53 did not set: no folder is made. *)
Theorem experiment_without_meltsfile title dir env w :
  calls (MeltsExperiment.__init__ title dir None env w).1
    = calls w ++ [Call_read_envfile (from_option id MELTS_Env env)] ∧
  folders (MeltsExperiment.__init__ title dir None env w).1 = folders w ∧
  (∀ M, (MeltsExperiment.__init__ title dir None env w).2 ≠ inr M) ∧
  (fault (calls w) (Call_read_envfile (from_option id MELTS_Env env)) = None →
   (MeltsExperiment.__init__ title dir None env w).2
     = inl (AttributeError "meltsfile")).
Proof.
  unfold MeltsExperiment.__init__, MeltsExperiment.set_envfile.
  unfold mbind, M_bind, mret, M_ret, extcall, raise.
  destruct env as [e|]; cbn;
    destruct (fault (calls w) _) as [err|]; cbn; done.
Qed.

(** X2: building an experiment from a meltsfile reads the meltsfile, reads
    the environment and makes the folder, in this order and stopping at the
    first call that raises.  The object that comes out keeps what the two
    reads returned as contents, drops the paths they returned, and places both
    files in its folder under the names that [run] later gives the process:
    the title with [.melts], and [environment.txt]. *)
Theorem experiment_construction title dir src env w :
  (∃ k, calls (MeltsExperiment.__init__ title dir (Some src) env w).1
        = calls w ++
          take k (construction title dir src (from_option id MELTS_Env env))) ∧
  (∀ M, (MeltsExperiment.__init__ title dir (Some src) env w).2 = inr M →
     calls (MeltsExperiment.__init__ title dir (Some src) env w).1
       = calls w ++ construction title dir src (from_option id MELTS_Env env) ∧
     MeltsExperiment.title M = title ∧
     MeltsExperiment.dir M = dir ∧
     MeltsExperiment.meltsfile M = (read_meltsfile src).1 ∧
     MeltsExperiment.envfile M
       = (read_envfile (from_option id MELTS_Env env)).1 ∧
     MeltsExperiment.meltsfilepath M
       = Some (MeltsExperiment.folder M ++ [mp_meltsfile (process_of M)]) ∧
     MeltsExperiment.envfilepath M
       = Some (MeltsExperiment.folder M ++ [mp_env (process_of M)]) ∧
     MeltsExperiment.mp M = None).
Proof.
  unfold MeltsExperiment.__init__, MeltsExperiment.set_meltsfile,
    MeltsExperiment.set_envfile, MeltsExperiment.make_meltsfolder, construction.
  unfold mbind, M_bind, mret, M_ret, extcall, raise, modify.
  destruct (read_meltsfile src) as [m mp] eqn:Hm.
  destruct w as [ds ls bs lg fs cs sh].
  destruct env as [e|]; cbn;
    (destruct (fault cs _) as [e1|]; cbn; [split; [by exists 1|done]|]);
    (destruct (fault (cs ++ _) _) as [e2|]; cbn;
       [split; [exists 2; by rewrite <- !(assoc_L (++))|done]|]);
    (destruct (fault ((cs ++ _) ++ _) _) as [e3|]; cbn;
       [split; [exists 3; by rewrite <- !(assoc_L (++))|done]|]);
    (split; [exists 3; by rewrite <- !(assoc_L (++))|]);
    intros M [= <-]; cbn; by rewrite <- !(assoc_L (++)).
Qed.

End ExperimentMore.

(** ** One pass through the loop, call by call *)

(** Stepping as [wp_sym] does, keeping the equation of each case split. *)
Ltac wp_sym_eq :=
  cbn beta iota;
  first
    [ wp_step
    | lazymatch goal with
      | |- wp (MeltsExperiment.__init__ _ _ _ _) _ _ _ =>
          unfold MeltsExperiment.__init__
      | |- wp (MeltsExperiment.run _ _ _) _ _ _ =>
          unfold MeltsExperiment.run
      | |- wp (MeltsExperiment.set_meltsfile _) _ _ _ =>
          unfold MeltsExperiment.set_meltsfile
      | |- wp (MeltsExperiment.set_envfile _) _ _ _ =>
          unfold MeltsExperiment.set_envfile
      | |- wp (MeltsExperiment.make_meltsfolder _ _ _ _) _ _ _ =>
          unfold MeltsExperiment.make_meltsfolder
      | |- wp (match ?x with _ => _ end) _ _ _ => destruct x eqn:?
      end ].

Section BodyMore.
Context {O : Outside}.

Lemma writes_snoc cs c :
  writes (cs ++ [c]) =
  writes cs ++
    match c with Call_write _ commands wait lg => [(commands, wait, lg)] | _ => [] end.
Proof. unfold writes. rewrite flat_map_app. cbn. by rewrite app_nil_r. Qed.

Lemma launch_trace self sl name exp env l w :
  wp (MeltsBatch.launch self sl name exp env l)
     (λ _ w',
        ∃ b m M,
          batches w !! self = Some b ∧
          deref exp w !! "modes" = Some m ∧
          MeltsExperiment.title M = name ∧
          MeltsExperiment.dir M = dir b ∧
          calls w' =
            calls w ++
            Call_dict_to_meltsfile (deref exp w) m (from_option id [] (lists w !! l))
            :: construction name (dir b)
                 (dict_to_meltsfile (deref exp w) m (from_option id [] (lists w !! l)))
                 env
            ++ session M false sl)
     (λ _ w',
        ∃ k : bool,
          writes (calls w') = writes (calls w) ++ if k then [batch_write sl] else []) w.
Proof.
  unfold MeltsBatch.launch.
  replace (batch_write sl)
    with ([3; MeltsExperiment.index_by_bool [0; 1] sl; 4]%Z, true, false)
    by (by destruct sl).
  unfold session.
  replace (if sl then 1%Z else 0%Z)
    with (MeltsExperiment.index_by_bool [0%Z; 1%Z] sl) by (by destruct sl).
  repeat wp_sym_eq.
  all: world_simpl.
  all: rewrite ?writes_snoc, <- ?(assoc_L (++)); cbn [app]; rewrite ?app_nil_r.
  all: try (by exists false; rewrite ?app_nil_r).
  all: try (by exists true).
  unfold deref in *. world_simpl. unfold construction.
  lazymatch goal with
  | Hb : batches w !! self = Some ?b, Hm : _ !! "modes" = Some ?v,
    Hr : read_meltsfile _ = _
    |- context [Call_MeltsProcess
                  {| mp_meltsfile := MeltsExperiment.title ?M +:+ _;
                     mp_env := _; mp_fromdir := _ |}] =>
      exists b, v, M; rewrite Hr; done
  end.
Qed.

Lemma deref_excluded exp l w :
  deref exp (excluded exp l w) = delete "exclude" (deref exp w).
Proof.
  unfold deref, excluded. world_simpl. rewrite list_lookup_alter_eq.
  destruct (dicts w !! exp) as [r|]; cbn; [done|]. by rewrite delete_empty.
Qed.

(** One pass through the body, in full. *)
Lemma run_body_trace self l sl name exp env w :
  wp (MeltsBatch.run_body self l sl (name, exp, env))
     (λ _ w',
        deref exp w !! "modifychem" = None ∧
        batches w' = batches w ∧
        dicts w' = alter (delete "exclude") exp (dicts w) ∧
        lists w' = alter (λ o, o ++ directive_items w l o exp) l (lists w) ∧
        log w' = log w ++ [Start name; Finished name] ∧
        writes (calls w') = writes (calls w) ++ [batch_write sl] ∧
        ∃ b m M,
          batches w !! self = Some b ∧
          deref exp w !! "modes" = Some m ∧
          MeltsExperiment.title M = name ∧
          MeltsExperiment.dir M = dir b ∧
          calls w' =
            calls w ++
            Call_dict_to_meltsfile (delete "exclude" (deref exp w)) m
              (from_option id [] (lists w' !! l))
            :: construction name (dir b)
                 (dict_to_meltsfile (delete "exclude" (deref exp w)) m
                    (from_option id [] (lists w' !! l)))
                 env
            ++ session M false sl)
     (λ _ w',
        batches w' = batches w ∧
        ∃ k : bool,
          writes (calls w') = writes (calls w) ++ if k then [batch_write sl] else []) w.
Proof.
  unfold MeltsBatch.run_body. wp_step.
  eapply wp_mono; [apply modify_chem_spec| |].
  2:{ intros e w' [-> _]. split; [done|]. exists false. cbn. by rewrite app_nil_r. }
  intros _ w' [-> Hmod]. wp_step.
  eapply wp_mono; [apply merge_exclude_spec| |].
  2:{ intros e w' [-> _]. split; [done|]. exists false. cbn. by rewrite app_nil_r. }
  intros l' w' [-> ->].
  eapply wp_mono; [apply (wp_conj _ _ _ _ _ _ (launch_spec self sl name exp env l _)
                            (launch_trace self sl name exp env l _))| |].
  - intros _ w' [(Hds & Hls & Hbs & Hlog & _) (b & m & M & Hb & Hm & Ht & Hd & Hcs)].
    rewrite deref_excluded in Hm, Hcs.
    split; [done|]. split; [done|]. split; [done|]. split; [done|].
    split; [done|].
    rewrite Hls. split.
    + rewrite Hcs.
      change (calls (excluded exp l w)) with (calls w).
      unfold writes. rewrite flat_map_app. by f_equal.
    + exists b, m, M. split; [done|].
      split; [by rewrite lookup_delete_ne in Hm|]. done.
  - intros e w' [(_ & _ & Hbs & _) Hw]. done.
Qed.

End BodyMore.

(** ** Edge cases of the loop body *)

Section BodyEdges.
Context {O : Outside}.

Lemma wp_returns {A} (m : M A) w w1 (x : A) :
  wp m (λ a w', w' = w1 ∧ a = x) (λ _ _, False) w → m w = (w1, inr x).
Proof.
  unfold wp. destruct (m w) as [w' [e|a]]; [done|]. by intros [-> ->].
Qed.

(** The exclusion step, by the kind of directive: it raises exactly on a
    number. *)
Lemma merge_exclude_cases exp l w :
  wp (MeltsBatch.merge_exclude exp l)
     (λ l' w', l' = l ∧ w' = excluded exp l w ∧
               ∀ q, deref exp w !! "exclude" ≠ Some (VNum q))
     (λ e w', ∃ q, deref exp w !! "exclude" = Some (VNum q) ∧
                   w' = set_dicts (alter (delete "exclude") exp) w ∧
                   e = TypeError "object is not iterable") w.
Proof.
  unfold MeltsBatch.merge_exclude. do 2 wp_step.
  destruct (deref exp w !! "exclude") as [v|] eqn:Hv.
  - rewrite bool_decide_eq_true_2 by eauto.
    do 2 wp_step. apply wp_dict_pop; rewrite Hv; [|done]. intros v' [= <-].
    wp_step. apply wp_object_iter. world_simpl.
    destruct v as [q|str|xs|items];
      [| |destruct (shared w !! exp) as [l'|] eqn:Hsh|];
      unfold value_iter; repeat wp_step; eauto.
    all: split; [done|]; split; [|done].
    all: apply excluded_eq; intros old Hold;
      unfold directive_items, exclusions_of; rewrite Hv, ?Hsh; try done.
    world_simpl. destruct (decide (l' = l)) as [->|]; [|done].
    by rewrite Hold.
  - rewrite bool_decide_eq_false_2 by (by intros [? ?]).
    repeat wp_step. by rewrite excluded_absent.
Qed.

(** X3: a record without ['modes'] fails at line 217 with [KeyError], and it
    does so late: the entries of its directive have already been appended
    to the list object as line 212 takes them (the elements of a list, the
    characters of a string, the keys of a mapping in insertion order, and of
    a list that is shared what it holds by then) and its directive popped,
    and ["Start <name>."] is logged; no call has left the module, so no
    folder exists for it. *)
Theorem run_body_without_modes self l sl name exp env w r :
  dicts w !! exp = Some r →
  r !! "modifychem" = None →
  r !! "modes" = None →
  (∀ q, r !! "exclude" ≠ Some (VNum q)) →
  MeltsBatch.run_body self l sl (name, exp, env) w =
    (set_log (λ lg, lg ++ [Start name]) (excluded exp l w),
     inl (KeyError "modes")).
Proof.
  intros Hr Hmod Hmodes Hnum. apply wp_raises.
  unfold MeltsBatch.run_body. wp_step.
  eapply wp_mono; [apply modify_chem_spec| |].
  2:{ intros e w' [_ [x Hx]]. rewrite (deref_lookup _ _ _ Hr), Hmod in Hx. done. }
  intros _ w' [-> _]. wp_step.
  eapply wp_mono; [apply merge_exclude_cases| |].
  2:{ intros e w' (q & Hq & _). rewrite (deref_lookup _ _ _ Hr) in Hq.
      by destruct (Hnum q). }
  intros l' w' (-> & -> & _).
  unfold MeltsBatch.launch. do 2 wp_step. do 2 wp_step. wp_step.
  apply wp_dict_getitem.
  - intros v Hv. exfalso. revert Hv.
    change (deref exp (set_log ?f ?w0)) with (deref exp w0).
    rewrite deref_excluded, (deref_lookup _ _ _ Hr).
    rewrite lookup_delete_ne by done. by rewrite Hmodes.
  - done.
Qed.

(** X4: an ['exclude'] directive that is a number makes line 212 raise
    [TypeError], after [pop] has taken the directive out of the record: the
    list object is as it was, nothing is logged and no call is made, but the
    record has lost its directive. *)
Theorem run_body_numeric_exclude self l sl name exp env w r q :
  dicts w !! exp = Some r →
  r !! "modifychem" = None →
  r !! "exclude" = Some (VNum q) →
  MeltsBatch.run_body self l sl (name, exp, env) w =
    (set_dicts (alter (delete "exclude") exp) w,
     inl (TypeError "object is not iterable")).
Proof.
  intros Hr Hmod Hex. apply wp_raises.
  unfold MeltsBatch.run_body. wp_step.
  eapply wp_mono; [apply modify_chem_spec| |].
  2:{ intros e w' [_ [x Hx]]. rewrite (deref_lookup _ _ _ Hr), Hmod in Hx. done. }
  intros _ w' [-> _]. wp_step.
  eapply wp_mono; [apply merge_exclude_cases| |].
  - intros l' w' (_ & _ & Hno). rewrite (deref_lookup _ _ _ Hr) in Hno.
    by destruct (Hno q).
  - intros e w' (q' & _ & -> & ->). done.
Qed.

(** X5: the failure on a ['modifychem'] directive happens once.  The pass
    that raises leaves the record without the directive and otherwise as it
    was, so the directive step of the next pass over that record returns at
    once and changes nothing: a second attempt goes on with the composition
    unmodified. *)
Theorem modifychem_consumed self l sl name exp env w r v :
  dicts w !! exp = Some r →
  r !! "modifychem" = Some v →
  (MeltsBatch.run_body self l sl (name, exp, env) w).1
    = set_dicts (alter (delete "modifychem") exp) w ∧
  deref exp (MeltsBatch.run_body self l sl (name, exp, env) w).1
    = delete "modifychem" r ∧
  MeltsBatch.modify_chem exp (MeltsBatch.run_body self l sl (name, exp, env) w).1
    = ((MeltsBatch.run_body self l sl (name, exp, env) w).1, inr tt).
Proof.
  intros Hr Hv.
  assert (H1 : (MeltsBatch.run_body self l sl (name, exp, env) w).1
               = set_dicts (alter (delete "modifychem") exp) w).
  { assert (Hwp : wp (MeltsBatch.run_body self l sl (name, exp, env))
                     (λ _ _, False)
                     (λ _ w', w' = set_dicts (alter (delete "modifychem") exp) w) w).
    { unfold MeltsBatch.run_body. wp_step.
      eapply wp_mono; [apply modify_chem_spec| |].
      - intros _ w' [_ Hn]. rewrite (deref_lookup _ _ _ Hr), Hv in Hn. done.
      - by intros e w' [-> _]. }
    apply wp_out in Hwp.
    by destruct (MeltsBatch.run_body self l sl (name, exp, env) w) as [w' [e|[]]]. }
  rewrite H1. split; [done|]. split; [by apply deref_alter|].
  apply wp_returns.
  eapply wp_mono; [apply modify_chem_spec| |].
  - by intros [] w' [-> _].
  - intros e w' [_ [x Hx]].
    rewrite (deref_alter _ _ _ _ Hr), lookup_delete_eq in Hx. done.
Qed.

End BodyEdges.

(** ** The whole of [MeltsBatch.run] *)

Section RunMore.
Context {O : Outside}.

Lemma run_records_app ns ms :
  run_records (ns ++ ms) = run_records ns ++ run_records ms.
Proof. apply flat_map_app. Qed.

Lemma loop_trace self l sl exps :
  ∀ w,
    wp (for_each exps (MeltsBatch.run_body self l sl))
       (λ _ w',
          batches w' = batches w ∧
          dicts w' = pop_excludes (exps.*1.*2) (dicts w) ∧
          log w' = log w ++ run_records (exps.*1.*1) ∧
          writes (calls w')
            = writes (calls w) ++ replicate (length exps) (batch_write sl))
       (λ _ w',
          batches w' = batches w ∧
          ∃ k, k ≤ length exps ∧
            writes (calls w') = writes (calls w) ++ replicate k (batch_write sl)) w.
Proof.
  induction exps as [|[[name exp] env] xs IH]; intros w.
  { cbn [for_each]. wp_step. cbn. by rewrite !app_nil_r. }
  cbn [for_each]. wp_step.
  eapply wp_mono; [apply run_body_trace| |].
  - intros _ w1 (_ & Hbs & Hds & _ & Hlog & Hwr & _).
    eapply wp_mono; [apply (IH w1)| |].
    + intros _ w2 (Hbs2 & Hds2 & Hlog2 & Hwr2).
      rewrite Hbs2, Hbs, Hds2, Hds, Hlog2, Hlog, Hwr2, Hwr.
      cbn. rewrite <- !(assoc_L (++)). done.
    + intros e w2 (Hbs2 & k & Hk & Hwr2).
      split; [by rewrite Hbs2|]. exists (S k). split; [cbn; lia|].
      rewrite Hwr2, Hwr. cbn. by rewrite <- !(assoc_L (++)).
  - intros e w1 (Hbs & k & Hwr). split; [done|].
    exists (if k then 1 else 0). rewrite Hwr.
    destruct k; cbn; split; try done; lia.
Qed.

Lemma pop_excludes_lookup ls :
  ∀ (ds : list record) i,
    pop_excludes ls ds !! i =
    if decide (i ∈ ls) then delete "exclude" <$> ds !! i else ds !! i.
Proof.
  induction ls as [|l ls IH]; intros ds i; [done|].
  change (pop_excludes (l :: ls) ds)
    with (pop_excludes ls (alter (delete "exclude") l ds)).
  rewrite IH.
  destruct (decide (i = l)) as [->|Hne].
  - rewrite list_lookup_alter_eq.
    rewrite (decide_True (P := l ∈ l :: ls)) by left.
    destruct (decide (l ∈ ls)); [|done].
    destruct (ds !! l) as [r|]; cbn; [|done]. by rewrite delete_delete_eq.
  - rewrite list_lookup_alter_ne by done.
    destruct (decide (i ∈ ls)) as [Hin|Hin].
    + rewrite (decide_True (P := i ∈ l :: ls)) by (by right). done.
    + rewrite (decide_False (P := i ∈ l :: ls)); [done|].
      intros [?|?]%elem_of_cons; done.
Qed.

(** The whole call, when it returns. *)
Lemma run_trace self ow exclude sl w b :
  batches w !! self = Some b →
  wp (MeltsBatch.run self ow exclude sl)
     (λ _ w',
        dicts w' = pop_excludes ((selection b ow (folders w)).*1.*2) (dicts w) ∧
        log w' = log w ++
          Starting (length (selection b ow (folders w)))
          :: run_records ((selection b ow (folders w)).*1.*1)
          ++ [Complete (time_time (calls w') - time_time (calls w))%Qc] ∧
        writes (calls w')
          = writes (calls w) ++
            replicate (length (selection b ow (folders w))) (batch_write sl) ∧
        duration <$> batches w' !! self
          = Some (Some (time_time (calls w') - time_time (calls w))%Qc))
     (λ _ w',
        batches w' !! self = Some (set_started (Some (time_time (calls w))) b) ∧
        ∃ k, k ≤ length (selection b ow (folders w)) ∧
          writes (calls w') = writes (calls w) ++ replicate k (batch_write sl)) w.
Proof.
  intros Hb. apply (run_wp _ _ _ _ _ _ _ _ Hb). wp_step.
  eapply wp_mono; [apply loop_trace| |].
  - intros _ w1 (Hbs & Hds & Hlog & Hwr).
    assert (Hb1 : batches w1 !! self
                  = Some (set_started (Some (time_time (calls w))) b)).
    { rewrite Hbs. by apply loop_entry_batch. }
    eapply wp_mono; [apply (finish_spec _ _ _ _ Hb1)| |done].
    intros _ w2 (Hds2 & _ & Hcs2 & _ & Hlog2 & Hb2).
    rewrite Hds2, Hds, Hlog2, Hlog, Hcs2, Hwr, Hb2.
    unfold loop_entry. world_simpl. cbn [started set_started from_option id].
    rewrite <- !(assoc_L (++)). done.
  - intros e w1 (Hbs & k & Hk & Hwr). split.
    + rewrite Hbs. by apply loop_entry_batch.
    + by exists k.
Qed.

(** X6: the records that a [run] that returns sends to the logger itself,
    in order: ["Starting n Calculations."] with [n] the number of experiments
    gone through, then for each of them in turn ["Start <name>."] and
    ["Finished <name>."], the records of one run never around those of
    another, then ["Calculations Complete after d"] with [d] the duration
    that the call leaves in [self.duration].  (The progress records of
    [tqdm] go to the same logger and are not among these.) *)
Theorem run_own_records self ow exclude sl w b :
  batches w !! self = Some b →
  (MeltsBatch.run self ow exclude sl w).2 = inr tt →
  ∃ d,
    duration <$> batches (MeltsBatch.run self ow exclude sl w).1 !! self
      = Some (Some d) ∧
    log (MeltsBatch.run self ow exclude sl w).1 =
      log w ++
      Starting (length (selection b ow (folders w)))
      :: run_records ((selection b ow (folders w)).*1.*1)
      ++ [Complete d].
Proof.
  intros Hb Hret.
  pose proof (wp_out _ _ _ _ (run_trace self ow exclude sl w b Hb)) as Hwp.
  rewrite Hret in Hwp. destruct Hwp as (_ & Hlog & _ & Hdur).
  eexists. split; [exact Hdur|exact Hlog].
Qed.

(** X7: [run] changes the batch's own records.  After a [run] that returns,
    the record of every experiment gone through is what it was with the
    ['exclude'] directive removed, so it asks for no exclusion any more; every
    other record in the store is untouched. *)
Theorem run_pops_directives self ow exclude sl w b :
  batches w !! self = Some b →
  (MeltsBatch.run self ow exclude sl w).2 = inr tt →
  (∀ i, i ∈ (selection b ow (folders w)).*1.*2 →
     dicts (MeltsBatch.run self ow exclude sl w).1 !! i
       = delete "exclude" <$> dicts w !! i ∧
     exclusions_of (deref i (MeltsBatch.run self ow exclude sl w).1) = []) ∧
  (∀ i, i ∉ (selection b ow (folders w)).*1.*2 →
     dicts (MeltsBatch.run self ow exclude sl w).1 !! i = dicts w !! i).
Proof.
  intros Hb Hret.
  pose proof (wp_out _ _ _ _ (run_trace self ow exclude sl w b Hb)) as Hwp.
  rewrite Hret in Hwp. destruct Hwp as (Hds & _ & _).
  split.
  - intros i Hi.
    assert (Hl : dicts (MeltsBatch.run self ow exclude sl w).1 !! i
                 = delete "exclude" <$> dicts w !! i).
    { rewrite Hds, pop_excludes_lookup. by rewrite decide_True. }
    split; [done|].
    unfold deref, exclusions_of. rewrite Hl.
    destruct (dicts w !! i) as [r|]; cbn; [|done].
    by rewrite lookup_delete_eq.
  - intros i Hi. rewrite Hds, pop_excludes_lookup. by rewrite decide_False.
Qed.

(** X8: a [run] that raises leaves the attributes that [run] sets half
    updated: [self.started] is the start of the failed call, while
    [self.duration] and [self.paths] are still whatever they were before it,
    unset or those of an earlier call. *)
Theorem run_failure_state self ow exclude sl w b e :
  batches w !! self = Some b →
  (MeltsBatch.run self ow exclude sl w).2 = inl e →
  ∃ b',
    batches (MeltsBatch.run self ow exclude sl w).1 !! self = Some b' ∧
    started b' = Some (time_time (calls w)) ∧
    duration b' = duration b ∧
    paths b' = paths b.
Proof.
  intros Hb Hret.
  pose proof (wp_out _ _ _ _ (run_trace self ow exclude sl w b Hb)) as Hwp.
  rewrite Hret in Hwp. destruct Hwp as (Hb' & _).
  eexists. split; [exact Hb'|]. done.
Qed.

(** X9: the flag given to [MeltsBatch.run] reaches the engine of every
    experiment and nothing else is ever written to an engine: the writes of a
    call are copies of one command sequence, 3, then 1 or 0 as
    [superliquidus_start] is true or false, then 4, always with [wait=True]
    and [log=False]; at most one per experiment gone through, and exactly one
    each when [run] returns. *)
Theorem run_writes self ow exclude sl w b :
  batches w !! self = Some b →
  (∃ k, k ≤ length (selection b ow (folders w)) ∧
     writes (calls (MeltsBatch.run self ow exclude sl w).1)
     = writes (calls w) ++ replicate k (batch_write sl)) ∧
  ((MeltsBatch.run self ow exclude sl w).2 = inr tt →
   writes (calls (MeltsBatch.run self ow exclude sl w).1)
   = writes (calls w) ++
     replicate (length (selection b ow (folders w))) (batch_write sl)).
Proof.
  intros Hb.
  pose proof (wp_out _ _ _ _ (run_trace self ow exclude sl w b Hb)) as Hwp.
  destruct ((MeltsBatch.run self ow exclude sl w).2) as [e|[]].
  - destruct Hwp as (_ & k & Hk & Hwr). split; [by exists k|done].
  - destruct Hwp as (_ & _ & Hwr & _). split; [|done].
    by exists (length (selection b ow (folders w))).
Qed.

(** X10: the calls of one experiment that runs to its end, in order: the
    record is rendered, without its ['exclude'] directive, with the value of
    its ['modes'] key as modes and with the exclusion list as it is once the
    directive is merged; the rendering and the environment are read back; the
    folder is made for the experiment's name under the batch's directory; and
    the process of an experiment of that name and directory is started,
    written to and terminated. *)
Theorem run_body_calls self l sl name exp env w w' :
  MeltsBatch.run_body self l sl (name, exp, env) w = (w', inr tt) →
  ∃ b m M,
    batches w !! self = Some b ∧
    deref exp w !! "modes" = Some m ∧
    MeltsExperiment.title M = name ∧
    MeltsExperiment.dir M = dir b ∧
    calls w' =
      calls w ++
      Call_dict_to_meltsfile (delete "exclude" (deref exp w)) m
        (from_option id [] (lists w' !! l))
      :: construction name (dir b)
           (dict_to_meltsfile (delete "exclude" (deref exp w)) m
              (from_option id [] (lists w' !! l)))
           env
      ++ session M false sl.
Proof.
  intros Hrun.
  pose proof (wp_out _ _ _ _ (run_body_trace self l sl name exp env w)) as Hwp.
  rewrite Hrun in Hwp. cbn in Hwp.
  by destruct Hwp as (_ & _ & _ & _ & _ & _ & Hcalls).
Qed.

Lemma pending_all_exist d fs (exps : list (string * loc * envspec)) :
  (∀ e, e ∈ exps → d ++ [e.1.1] ∈ fs) → MeltsBatch.pending d fs exps = [].
Proof.
  intros Hall. unfold MeltsBatch.pending.
  induction exps as [|x xs IH]; [done|].
  rewrite filter_cons_False.
  - apply IH. intros e He. apply Hall. by right.
  - rewrite negb_true_iff, bool_decide_eq_false.
    intros Hn. apply Hn, Hall. left.
Qed.

(** A call of [run] that finds nothing to go through. *)
Lemma run_of_empty_selection self ow exclude sl w b :
  batches w !! self = Some b →
  selection b ow (folders w) = [] →
  (MeltsBatch.run self ow exclude sl w).2 = inr tt ∧
  (∃ d, log (MeltsBatch.run self ow exclude sl w).1
        = log w ++ [Starting 0; Complete d]) ∧
  calls (MeltsBatch.run self ow exclude sl w).1 = calls w ∧
  dicts (MeltsBatch.run self ow exclude sl w).1 = dicts w ∧
  lists (MeltsBatch.run self ow exclude sl w).1 = lists w ∧
  folders (MeltsBatch.run self ow exclude sl w).1 = folders w.
Proof.
  intros Hb Hsel.
  assert (Hwp : wp (MeltsBatch.run self ow exclude sl)
            (λ _ w', (∃ d, log w' = log w ++ [Starting 0; Complete d]) ∧
                     calls w' = calls w ∧ dicts w' = dicts w ∧
                     lists w' = lists w ∧ folders w' = folders w)
            (λ _ _, False) w).
  { apply (run_wp _ _ _ _ _ _ _ _ Hb). rewrite Hsel.
    wp_step. cbn [for_each]. wp_step.
    eapply wp_mono;
      [apply (finish_spec _ _ _ _ (loop_entry_batch _ _ _ _ Hb))| |done].
    intros _ w2 (Hds & Hls & Hcs & Hfs & Hlog & _).
    rewrite Hds, Hls, Hcs, Hfs, Hlog. unfold loop_entry. rewrite Hsel.
    world_simpl. cbn [started set_started from_option id length].
    split; [|done]. eexists. by rewrite <- !(assoc_L (++)). }
  apply wp_out in Hwp.
  destruct ((MeltsBatch.run self ow exclude sl w).2) as [e|[]]; [done|].
  done.
Qed.

(** X11: when the folder of every experiment exists, [run] with
    [overwrite=False] has nothing to do and says so: it returns, logs
    ["Starting 0 Calculations."] and then the completion, makes no call, and
    leaves the records, the exclusion lists and the folders as they were. *)
Theorem run_nothing_pending self exclude sl w b :
  batches w !! self = Some b →
  (∀ e, e ∈ experiments b → dir b ++ [e.1.1] ∈ folders w) →
  (MeltsBatch.run self false exclude sl w).2 = inr tt ∧
  (∃ d, log (MeltsBatch.run self false exclude sl w).1
        = log w ++ [Starting 0; Complete d]) ∧
  calls (MeltsBatch.run self false exclude sl w).1 = calls w ∧
  dicts (MeltsBatch.run self false exclude sl w).1 = dicts w ∧
  lists (MeltsBatch.run self false exclude sl w).1 = lists w ∧
  folders (MeltsBatch.run self false exclude sl w).1 = folders w.
Proof.
  intros Hb Hall. apply (run_of_empty_selection _ _ _ _ _ _ Hb).
  by apply pending_all_exist.
Qed.

End RunMore.

(** ** More on the configuration grid and the constructor *)

Section InitMore.
Context {O : Outside}.

Lemma union_covering (d i : record) : dom d ⊆ dom i → i ∪ d = i.
Proof.
  intros Hdom. apply map_eq. intros k. rewrite lookup_union.
  destruct (i !! k) as [v|] eqn:Hi; [by destruct (d !! k)|].
  assert (Hd : d !! k = None).
  { apply not_elem_of_dom. intros Hk. apply Hdom in Hk.
    by apply not_elem_of_dom in Hi. }
  by rewrite Hd.
Qed.

(** X12: the test of line 171 is enough when every combination gives a value
    to every key of the default: then merging changes no combination, the
    result is the default followed by the combinations that are not equal
    ([==]) to the default, and distinct combinations give distinct
    configurations, with no second copy of the default among them. *)
Theorem expand_from_covering (d : record) (grid : list record) :
  NoDup grid →
  (∀ i, i ∈ grid → dom d ⊆ dom i) →
  expand_from d grid = d :: filter (λ i, ¬ dict_eq i d) grid ∧
  NoDup (expand_from d grid).
Proof.
  intros Hnd Hcover.
  assert (Heq : expand_from d grid = d :: filter (λ i, ¬ dict_eq i d) grid).
  { rewrite expand_from_unfold. f_equal.
    rewrite <- (map_id (filter (λ i, ¬ dict_eq i d) grid)) at 2.
    apply map_ext_in. intros i Hi%list_elem_of_In%list_elem_of_filter.
    apply union_covering, Hcover, Hi. }
  split; [done|]. rewrite Heq. apply list.NoDup_cons. split.
  - intros Hin%list_elem_of_filter. destruct Hin as [Hne _].
    apply Hne, dict_eq_refl.
  - by apply list.NoDup_filter.
Qed.

(** X13: the record of every experiment takes each key from the composition
    if the composition has it, otherwise from the grid combination if that
    has it, otherwise from the default; its name is the name of that record
    and its environment the batch's. *)
Theorem experiment_record_precedence comp_df fromdir d g env w name l e :
  (name, l, e) ∈ experiments (init_batch comp_df fromdir d g env w) →
  ∃ r cmp i,
    dicts (MeltsBatch.__init__ comp_df fromdir d g env w).1 !! l = Some r ∧
    name = exp_name r ∧
    e = MeltsBatch.env_or_default env ∧
    cmp ∈ comp_df ∧
    (i = ∅ ∨ i ∈ combine_choices g) ∧
    ∀ k, r !! k =
         match cmp !! k with
         | Some v => Some v
         | None => match i !! k with
                   | Some v => Some v
                   | None => d !! k
                   end
         end.
Proof.
  intros Hin. apply list_elem_of_lookup in Hin as [n Hn].
  unfold init_batch in Hn. cbn [experiments] in Hn.
  apply lookup_zip_with_Some in Hn as (r & l' & Heq & Hr & Hl).
  injection Heq as -> -> ->.
  destruct (init_experiment_lookup comp_df fromdir d g env w n r Hr) as [_ Hd].
  apply lookup_seq in Hl as [-> _].
  assert (Hrin : r ∈ MeltsBatch.experiment_records (expand_configs d g) comp_df).
  { apply list_elem_of_lookup. eauto. }
  unfold MeltsBatch.experiment_records in Hrin.
  apply list_elem_of_In, in_map_iff in Hrin as ([cfg cmp] & <- & Hp).
  apply in_prod_iff in Hp as [Hcfg Hcmp].
  rewrite expand_configs_unfold in Hcfg.
  assert (Hi : ∃ i, (i = ∅ ∨ i ∈ combine_choices g) ∧ cfg = i ∪ d).
  { destruct Hcfg as [<-|Hcfg].
    - exists ∅. split; [by left|]. by rewrite (left_id_L ∅ (∪)).
    - apply in_map_iff in Hcfg as (i & <- & Hi).
      apply list_elem_of_In, list_elem_of_filter in Hi as [_ Hi]. eauto. }
  destruct Hi as (i & Hi & ->).
  exists (merge_over (i ∪ d) cmp), cmp, i.
  split; [done|]. split; [done|]. split; [done|].
  split; [by apply list_elem_of_In|]. split; [done|].
  intros k. unfold merge_over. rewrite !lookup_union.
  destruct (cmp !! k), (i !! k), (d !! k); done.
Qed.

End InitMore.

(** ** Runs that return, and running again *)

Section RunAgain.
Context {O : Outside}.

Lemma runnable_delete r : runnable r → runnable (delete "exclude" r).
Proof.
  intros (Hmod & Hmodes & Hnum). split; [|split].
  - by rewrite lookup_delete_ne.
  - by rewrite lookup_delete_ne.
  - intros q. by rewrite lookup_delete_eq.
Qed.

Lemma deref_after_pop exp i w w' :
  dicts w' = alter (delete "exclude") exp (dicts w) →
  deref i w' = deref i w ∨ deref i w' = delete "exclude" (deref i w).
Proof.
  intros Hds. unfold deref. rewrite Hds.
  destruct (decide (i = exp)) as [->|Hne].
  - right. rewrite list_lookup_alter_eq.
    destruct (dicts w !! exp); cbn; [done|]. by rewrite delete_empty.
  - left. by rewrite list_lookup_alter_ne.
Qed.

Lemma launch_returns self sl name exp env l w b :
  (∀ h c, fault h c = None) →
  batches w !! self = Some b →
  is_Some (deref exp w !! "modes") →
  wp (MeltsBatch.launch self sl name exp env l) (λ _ _, True) (λ _ _, False) w.
Proof.
  intros Hfault Hb [m Hm]. unfold MeltsBatch.launch.
  repeat wp_sym.
  all: try done.
  all: unfold deref in *; world_simpl.
  all: try (rewrite Hfault in *; done).
  all: try (rewrite Hm in *; done).
  all: try (rewrite Hb in *; done).
Qed.

Lemma launch_folders self sl name exp env l w :
  wp (MeltsBatch.launch self sl name exp env l)
     (λ _ w', ∃ b, batches w !! self = Some b ∧
                   folders w' = {[ dir b ++ [name] ]} ∪ folders w)
     (λ _ _, True) w.
Proof.
  unfold MeltsBatch.launch.
  repeat wp_sym.
  all: try done.
  world_simpl. eauto.
Qed.

Lemma run_body_returns self l sl name exp env w b :
  (∀ h c, fault h c = None) →
  batches w !! self = Some b →
  runnable (deref exp w) →
  wp (MeltsBatch.run_body self l sl (name, exp, env))
     (λ _ _, True) (λ _ _, False) w.
Proof.
  intros Hfault Hb (Hmod & Hmodes & Hnum).
  unfold MeltsBatch.run_body. wp_step.
  eapply wp_mono; [apply modify_chem_spec| |].
  2:{ intros e w' [_ [x Hx]]. by rewrite Hmod in Hx. }
  intros _ w' [-> _]. wp_step.
  eapply wp_mono; [apply merge_exclude_cases| |].
  2:{ intros e w' (q & Hq & _). by destruct (Hnum q). }
  intros l' w' (-> & -> & _).
  apply (launch_returns _ _ _ _ _ _ _ b Hfault); [done|].
  rewrite deref_excluded. by rewrite lookup_delete_ne.
Qed.

Lemma run_body_folders self l sl name exp env w :
  wp (MeltsBatch.run_body self l sl (name, exp, env))
     (λ _ w', ∃ b, batches w !! self = Some b ∧
                   folders w' = {[ dir b ++ [name] ]} ∪ folders w)
     (λ _ _, True) w.
Proof.
  unfold MeltsBatch.run_body. wp_step.
  eapply wp_mono; [apply modify_chem_spec| |done].
  intros _ w' [-> _]. wp_step.
  eapply wp_mono; [apply merge_exclude_spec| |done].
  intros l' w' [-> ->].
  eapply wp_mono; [apply launch_folders| |done].
  intros _ w' (b & Hb & Hfs). exists b. done.
Qed.

Lemma loop_returns self l sl b exps :
  (∀ h c, fault h c = None) →
  ∀ w,
    batches w !! self = Some b →
    (∀ e, e ∈ exps → runnable (deref e.1.2 w)) →
    wp (for_each exps (MeltsBatch.run_body self l sl))
       (λ _ w', batches w' = batches w) (λ _ _, False) w.
Proof.
  intros Hfault.
  induction exps as [|[[name exp] env] xs IH]; intros w Hb Hgood.
  { cbn [for_each]. by wp_step. }
  cbn [for_each]. wp_step.
  eapply wp_mono;
    [apply (wp_conj _ _ _ _ _ _
              (run_body_trace self l sl name exp env w)
              (run_body_returns self l sl name exp env w b Hfault Hb
                 (Hgood _ (list_elem_of_here _ _))))| |by intros e w' [_ ?]].
  intros _ w1 [(_ & Hbs & Hds & _) _].
  eapply wp_mono; [apply (IH w1)| |done].
  - by rewrite Hbs.
  - intros e He.
    destruct (deref_after_pop exp e.1.2 w w1 Hds) as [->| ->].
    + apply Hgood. by right.
    + apply runnable_delete, Hgood. by right.
  - intros a w2 Hbs2. by rewrite Hbs2.
Qed.

(** X15: a [run] returns when the outside lets it: if no call into the
    absent modules raises and every experiment to go through has a record
    with ['modes'], without ['modifychem'] and without a number for
    ['exclude'], then [run] goes through all of them and returns. *)
Theorem run_returns self ow exclude sl w b :
  (∀ h c, fault h c = None) →
  batches w !! self = Some b →
  (∀ e, e ∈ selection b ow (folders w) → runnable (deref e.1.2 w)) →
  (MeltsBatch.run self ow exclude sl w).2 = inr tt.
Proof.
  intros Hfault Hb Hgood.
  assert (Hwp : wp (MeltsBatch.run self ow exclude sl)
                   (λ _ _, True) (λ _ _, False) w).
  { apply (run_wp _ _ _ _ _ _ _ _ Hb). wp_step.
    eapply wp_mono;
      [apply (loop_returns self (exclude_object exclude) sl
                (set_started (Some (time_time (calls w))) b) _ Hfault
                (loop_entry self b ow w) (loop_entry_batch _ _ _ _ Hb))| |done].
    - intros e He. by apply Hgood.
    - intros a w1 Hbs.
      assert (Hb1 : batches w1 !! self
                    = Some (set_started (Some (time_time (calls w))) b)).
      { rewrite Hbs. by apply loop_entry_batch. }
      eapply wp_mono; [apply (finish_spec _ _ _ _ Hb1)|done|done]. }
  apply wp_out in Hwp.
  by destruct ((MeltsBatch.run self ow exclude sl w).2) as [e|[]].
Qed.

Lemma loop_folders self l sl b exps :
  ∀ w,
    batches w !! self = Some b →
    wp (for_each exps (MeltsBatch.run_body self l sl))
       (λ _ w',
          batches w' = batches w ∧
          folders w ⊆ folders w' ∧
          ∀ e, e ∈ exps → dir b ++ [e.1.1] ∈ folders w')
       (λ _ _, True) w.
Proof.
  induction exps as [|[[name exp] env] xs IH]; intros w Hb.
  { cbn [for_each]. wp_step. split; [done|]. split; [done|].
    intros e He. by apply elem_of_nil in He. }
  cbn [for_each]. wp_step.
  eapply wp_mono;
    [apply (wp_conj _ _ _ _ _ _
              (run_body_trace self l sl name exp env w)
              (run_body_folders self l sl name exp env w))| |done].
  intros _ w1 [(_ & Hbs & _) (b' & Hb' & Hfs)].
  assert (b' = b) as -> by congruence.
  eapply wp_mono; [apply (IH w1)| |done].
  - by rewrite Hbs.
  - intros _ w2 (Hbs2 & Hsub & Hall).
    split; [by rewrite Hbs2|]. split.
    + etrans; [|exact Hsub]. rewrite Hfs. apply union_subseteq_r.
    + intros e [->|He]%elem_of_cons; [|by apply Hall].
      apply Hsub. rewrite Hfs. apply elem_of_union_l. by apply elem_of_singleton.
Qed.

(** X16: a [run] that returns leaves nothing to do for a [run] with
    [overwrite=False]: the folder of every experiment of the batch then
    exists, those gone through because building the experiment made it (as
    the specification has [make_meltsfolder] do) and the others because they
    were skipped for it.  So running again with [overwrite=False] returns
    after ["Starting 0 Calculations."] without a single call. *)
Theorem run_again_does_nothing self ow exclude sl w b exclude' sl' :
  batches w !! self = Some b →
  (MeltsBatch.run self ow exclude sl w).2 = inr tt →
  (∀ e, e ∈ experiments b →
     dir b ++ [e.1.1] ∈ folders (MeltsBatch.run self ow exclude sl w).1) ∧
  (MeltsBatch.run self false exclude' sl'
     (MeltsBatch.run self ow exclude sl w).1).2 = inr tt ∧
  calls (MeltsBatch.run self false exclude' sl'
           (MeltsBatch.run self ow exclude sl w).1).1
    = calls (MeltsBatch.run self ow exclude sl w).1 ∧
  ∃ d, log (MeltsBatch.run self false exclude' sl'
              (MeltsBatch.run self ow exclude sl w).1).1
        = log (MeltsBatch.run self ow exclude sl w).1
          ++ [Starting 0; Complete d].
Proof.
  intros Hb Hret.
  assert (Hwp : wp (MeltsBatch.run self ow exclude sl)
            (λ _ w',
               (∃ b', batches w' !! self = Some b' ∧
                      dir b' = dir b ∧ experiments b' = experiments b) ∧
               folders w ⊆ folders w' ∧
               ∀ e, e ∈ selection b ow (folders w) →
                    dir b ++ [e.1.1] ∈ folders w')
            (λ _ _, True) w).
  { apply (run_wp _ _ _ _ _ _ _ _ Hb). wp_step.
    eapply wp_mono;
      [apply (loop_folders self (exclude_object exclude) sl
                (set_started (Some (time_time (calls w))) b) _
                (loop_entry self b ow w) (loop_entry_batch _ _ _ _ Hb))| |done].
    intros _ w1 (Hbs & Hsub & Hall).
    assert (Hb1 : batches w1 !! self
                  = Some (set_started (Some (time_time (calls w))) b)).
    { rewrite Hbs. by apply loop_entry_batch. }
    eapply wp_mono; [apply (finish_spec _ _ _ _ Hb1)| |done].
    intros _ w2 (_ & _ & _ & Hfs & _ & Hb2).
    rewrite Hfs. split; [|done].
    eexists. split; [exact Hb2|]. done. }
  apply wp_out in Hwp. rewrite Hret in Hwp.
  destruct Hwp as ((b' & Hb' & Hdir & Hexps) & Hsub & Hall).
  assert (Hexist : ∀ e, e ∈ experiments b →
            dir b ++ [e.1.1] ∈ folders (MeltsBatch.run self ow exclude sl w).1).
  { intros e He.
    destruct (decide (dir b ++ [e.1.1] ∈ folders w)) as [Hin|Hnin].
    - by apply Hsub.
    - apply Hall. destruct ow; [done|]. cbn [selection].
      unfold MeltsBatch.pending. apply list_elem_of_filter. split; [|done].
      by rewrite negb_true_iff, bool_decide_eq_false. }
  split; [done|].
  assert (Hsel : selection b' false (folders (MeltsBatch.run self ow exclude sl w).1) = []).
  { cbn [selection]. apply pending_all_exist. rewrite Hdir, Hexps. done. }
  pose proof (run_of_empty_selection self false exclude' sl' _ b' Hb' Hsel)
    as (H1 & H2 & H3 & _).
  done.
Qed.

End RunAgain.

(** ** The further properties at work on sample batches *)

Lemma experiment_without_meltsfile_witness :
  (MeltsExperiment.__init__ (O := Sample.quiet) "MeltsExperiment" [] None None
     (MeltsBatch.loaded ∅)).2
  = inl (AttributeError "meltsfile").
Proof.
  apply (proj2 (proj2 (proj2
           (experiment_without_meltsfile (O := Sample.quiet)
              "MeltsExperiment" [] None (MeltsBatch.loaded ∅))))).
  reflexivity.
Defined.

Lemma experiment_construction_witness :
  calls (MeltsExperiment.__init__ (O := Sample.quiet) "A" [] (Some "Title: A")
           None (MeltsBatch.loaded ∅)).1
  = [ Call_read_meltsfile "Title: A";
      Call_read_envfile MELTS_Env;
      Call_make_meltsfolder "Title: A" "A" [] "ALPHAMELTS_VERSION MELTS" ].
Proof.
  apply (proj2 (experiment_construction (O := Sample.quiet) "A" [] "Title: A"
                  None (MeltsBatch.loaded ∅))
           Sample.experiment_A).
  vm_compute; reflexivity.
Defined.

Lemma run_body_without_modes_witness :
  MeltsBatch.run_body (O := Sample.quiet) 0 0 true ("A", 0, MELTS_Env)
    Cases.without_modes_init.1
  = (set_log (λ lg, lg ++ [Start "A"]) (excluded 0 0 Cases.without_modes_init.1),
     inl (KeyError "modes")).
Proof.
  apply (run_body_without_modes (O := Sample.quiet) 0 0 true "A" 0 MELTS_Env
           Cases.without_modes_init.1 Cases.garnet_without_modes).
  - vm_compute; reflexivity.
  - vm_compute; reflexivity.
  - vm_compute; reflexivity.
  - intros q. vm_compute. discriminate.
Defined.

(** There the directive is the mapping [{'garnet': 2, 'olivine': 1}]: the
    list object ends with its keys as they were inserted. *)
Example without_modes_list_extended :
  lists (MeltsBatch.run_body (O := Sample.quiet) 0 0 true ("A", 0, MELTS_Env)
           Cases.without_modes_init.1).1
  = [["garnet"; "olivine"]].
Proof. vm_compute; reflexivity. Qed.

Lemma run_body_numeric_exclude_witness :
  MeltsBatch.run_body (O := Sample.quiet) 0 0 true ("A", 0, MELTS_Env)
    Cases.numeric_init.1
  = (set_dicts (alter (delete "exclude") 0) Cases.numeric_init.1,
     inl (TypeError "object is not iterable")).
Proof.
  apply (run_body_numeric_exclude (O := Sample.quiet) 0 0 true "A" 0 MELTS_Env
           Cases.numeric_init.1 Cases.numeric_exclude (Q2Qc (inject_Z 5))).
  - vm_compute; reflexivity.
  - vm_compute; reflexivity.
  - vm_compute; reflexivity.
Defined.

Lemma modifychem_consumed_witness :
  deref 0 (MeltsBatch.run_body (O := Sample.quiet) 0 0 true ("A", 0, MELTS_Env)
             Sample.modify_init.1).1
  = delete "modifychem" Sample.modify_record.
Proof.
  apply (proj1 (proj2
           (modifychem_consumed (O := Sample.quiet) 0 0 true "A" 0 MELTS_Env
              Sample.modify_init.1 Sample.modify_record
              (VDict [("MgO", Q2Qc 10)])
              ltac:(vm_compute; reflexivity) ltac:(vm_compute; reflexivity)))).
Defined.

Lemma run_own_records_witness :
  ∃ d,
    duration <$> batches Cases.ab_run.1 !! 0 = Some (Some d) ∧
    log Cases.ab_run.1 =
      log (Sample.ab_init ∅).1 ++
      Starting (length (selection Sample.ab_batch true
                          (folders (Sample.ab_init ∅).1)))
      :: run_records ((selection Sample.ab_batch true
                         (folders (Sample.ab_init ∅).1)).*1.*1)
      ++ [Complete d].
Proof.
  apply (run_own_records (O := Sample.quiet) 0 true None true
           (Sample.ab_init ∅).1 Sample.ab_batch).
  - vm_compute; reflexivity.
  - vm_compute; reflexivity.
Defined.

Lemma run_pops_directives_witness :
  dicts Cases.olivine_out.1 !! 0
    = delete "exclude" <$> dicts Sample.olivine_init.1 !! 0 ∧
  exclusions_of (deref 0 Cases.olivine_out.1) = [].
Proof.
  apply (proj1 (run_pops_directives (O := Sample.quiet) 0 true None true
                  Sample.olivine_init.1 Cases.olivine_batch
                  ltac:(vm_compute; reflexivity) ltac:(vm_compute; reflexivity))
           0).
  apply (bool_decide_unpack _). vm_compute. exact I.
Defined.

Lemma run_failure_state_witness :
  ∃ b',
    batches Cases.failed_run.1 !! 0 = Some b' ∧
    started b' = Some (time_time (Outside := Sample.quiet)
                         (calls Sample.a_without_modes_init.1)) ∧
    duration b' = duration Cases.a_without_modes_batch ∧
    paths b' = paths Cases.a_without_modes_batch.
Proof.
  apply (run_failure_state (O := Sample.quiet) 0 true None true
           Sample.a_without_modes_init.1 Cases.a_without_modes_batch
           (KeyError "modes")).
  - vm_compute; reflexivity.
  - vm_compute; reflexivity.
Defined.

Lemma run_writes_witness :
  writes (calls Cases.ab_run.1)
  = writes (calls (Sample.ab_init ∅).1) ++
    replicate (length (selection Sample.ab_batch true (folders (Sample.ab_init ∅).1)))
      (batch_write true).
Proof.
  apply (proj2 (run_writes (O := Sample.quiet) 0 true None true
                  (Sample.ab_init ∅).1 Sample.ab_batch
                  ltac:(vm_compute; reflexivity))).
  vm_compute; reflexivity.
Defined.

Lemma run_body_calls_witness :
  ∃ b m M,
    batches (Sample.ab_init ∅).1 !! 0 = Some b ∧
    deref 0 (Sample.ab_init ∅).1 !! "modes" = Some m ∧
    MeltsExperiment.title M = "A" ∧
    MeltsExperiment.dir M = dir b ∧
    calls (MeltsBatch.run_body (O := Sample.quiet) 0 0 true ("A", 0, MELTS_Env)
             (Sample.ab_init ∅).1).1 =
      calls (Sample.ab_init ∅).1 ++
      Call_dict_to_meltsfile (delete "exclude" (deref 0 (Sample.ab_init ∅).1)) m
        (from_option id []
           (lists (MeltsBatch.run_body (O := Sample.quiet) 0 0 true
                     ("A", 0, MELTS_Env) (Sample.ab_init ∅).1).1 !! 0))
      :: construction (O := Sample.quiet) "A" (dir b)
           (dict_to_meltsfile (Outside := Sample.quiet)
              (delete "exclude" (deref 0 (Sample.ab_init ∅).1)) m
              (from_option id []
                 (lists (MeltsBatch.run_body (O := Sample.quiet) 0 0 true
                           ("A", 0, MELTS_Env) (Sample.ab_init ∅).1).1 !! 0)))
           MELTS_Env
      ++ session M false true.
Proof.
  apply (run_body_calls (O := Sample.quiet) 0 0 true "A" 0 MELTS_Env
           (Sample.ab_init ∅).1).
  vm_compute; reflexivity.
Defined.

Lemma run_nothing_pending_witness :
  (MeltsBatch.run (O := Sample.quiet) 0 false None true Cases.done_init.1).2
    = inr tt ∧
  (∃ d, log (MeltsBatch.run (O := Sample.quiet) 0 false None true
                Cases.done_init.1).1
        = log Cases.done_init.1 ++ [Starting 0; Complete d]) ∧
  calls (MeltsBatch.run (O := Sample.quiet) 0 false None true Cases.done_init.1).1
    = calls Cases.done_init.1 ∧
  dicts (MeltsBatch.run (O := Sample.quiet) 0 false None true Cases.done_init.1).1
    = dicts Cases.done_init.1 ∧
  lists (MeltsBatch.run (O := Sample.quiet) 0 false None true Cases.done_init.1).1
    = lists Cases.done_init.1 ∧
  folders (MeltsBatch.run (O := Sample.quiet) 0 false None true Cases.done_init.1).1
    = folders Cases.done_init.1.
Proof.
  apply (run_nothing_pending (O := Sample.quiet) 0 None true Cases.done_init.1
           Sample.ab_batch).
  - vm_compute; reflexivity.
  - apply (proj1 (list.Forall_forall
                    (λ e, dir Sample.ab_batch ++ [e.1.1] ∈ folders Cases.done_init.1)
                    (experiments Sample.ab_batch))).
    apply (bool_decide_unpack _). vm_compute. exact I.
Defined.

Lemma expand_from_covering_witness :
  expand_from Cases.pressure_default (combine_choices Sample.pressure_grid)
    = Cases.pressure_default
      :: filter (λ i, ¬ dict_eq i Cases.pressure_default)
                (combine_choices Sample.pressure_grid) ∧
  NoDup (expand_from Cases.pressure_default (combine_choices Sample.pressure_grid)).
Proof.
  apply (expand_from_covering Cases.pressure_default
           (combine_choices Sample.pressure_grid)).
  - apply (bool_decide_unpack _). vm_compute. exact I.
  - apply (proj1 (list.Forall_forall
                    (λ i : record, dom Cases.pressure_default ⊆ dom i) _)).
    apply (bool_decide_unpack _). vm_compute. exact I.
Defined.

Lemma experiment_record_precedence_witness :
  ∃ r cmp i,
    dicts (MeltsBatch.__init__ (O := Sample.quiet)
             [Sample.comp "A"; Sample.comp "B"] [] Sample.base
             Sample.pressure_grid None (MeltsBatch.loaded ∅)).1 !! 3 = Some r ∧
    "B" = exp_name (Outside := Sample.quiet) r ∧
    MELTS_Env = MeltsBatch.env_or_default None ∧
    cmp ∈ [Sample.comp "A"; Sample.comp "B"] ∧
    (i = ∅ ∨ i ∈ combine_choices Sample.pressure_grid) ∧
    ∀ k, r !! k =
         match cmp !! k with
         | Some v => Some v
         | None => match i !! k with
                   | Some v => Some v
                   | None => Sample.base !! k
                   end
         end.
Proof.
  apply (experiment_record_precedence (O := Sample.quiet)
           [Sample.comp "A"; Sample.comp "B"] [] Sample.base
           Sample.pressure_grid None (MeltsBatch.loaded ∅) "B" 3 MELTS_Env).
  apply (bool_decide_unpack _). vm_compute. exact I.
Defined.

Lemma run_returns_witness : Cases.ab_run.2 = inr tt.
Proof.
  apply (run_returns (O := Sample.quiet) 0 true None true (Sample.ab_init ∅).1
           Sample.ab_batch).
  - intros h c. reflexivity.
  - vm_compute; reflexivity.
  - apply (proj1 (list.Forall_forall
                    (λ e, runnable (deref e.1.2 (Sample.ab_init ∅).1))
                    (selection Sample.ab_batch true (folders (Sample.ab_init ∅).1)))).
    repeat constructor;
      try (vm_compute; reflexivity);
      try (eexists; vm_compute; reflexivity);
      try (intros q; vm_compute; discriminate).
Defined.

Lemma run_again_does_nothing_witness :
  (∀ e, e ∈ experiments Sample.ab_batch →
     dir Sample.ab_batch ++ [e.1.1] ∈ folders Cases.ab_run.1) ∧
  (MeltsBatch.run (O := Sample.quiet) 0 false None true Cases.ab_run.1).2
    = inr tt ∧
  calls (MeltsBatch.run (O := Sample.quiet) 0 false None true Cases.ab_run.1).1
    = calls Cases.ab_run.1 ∧
  ∃ d, log (MeltsBatch.run (O := Sample.quiet) 0 false None true
              Cases.ab_run.1).1
        = log Cases.ab_run.1 ++ [Starting 0; Complete d].
Proof.
  apply (run_again_does_nothing (O := Sample.quiet) 0 true None true
           (Sample.ab_init ∅).1 Sample.ab_batch None true).
  - vm_compute; reflexivity.
  - vm_compute; reflexivity.
Defined.
